(** * ServiceCloudVoiceLambdas health check: template resolution,
      orchestration and reporting

    A shallow embedding of
    - [utils/placeholder_utils.py] (the placeholder resolver),
    - [core/multithreading.py]     (the validation orchestrator),
    - [core/reporting.py]          (the report aggregator and CSV renderer),
    followed by the properties of the specification that concern them.

    Python [str] is modelled by [string]; a character is a code point below
    256.  A function that can raise returns [option], [None] standing for
    the raised exception.  What the code reads from outside its arguments
    (stream discovery over the network, the clock, the log-level
    environment) is gathered in the record [world]. *)

From Stdlib Require Import ZArith String Ascii.
From stdpp Require Import base option list strings gmap.

Local Open Scope string_scope.

(** ** Python string operations *)

Module PyStr.

(** [s.startswith(p)] *)
Definition startswith (p s : string) : bool := String.prefix p s.

(** [needle in hay] *)
Fixpoint contains (needle hay : string) : bool :=
  String.prefix needle hay ||
  match hay with
  | EmptyString => false
  | String _ t => contains needle t
  end.

(** [drop n s] is [s[n:]] *)
Fixpoint drop (n : nat) (s : string) : string :=
  match n, s with
  | O, _ => s
  | S _, EmptyString => EmptyString
  | S k, String _ t => drop k t
  end.

(** Scanning left to right; [skip] counts the characters of the current
    occurrence that are still to be passed over. *)
Fixpoint replace_from (old new s : string) (skip : nat) : string :=
  match s with
  | EmptyString => EmptyString
  | String c t =>
      match skip with
      | S k => replace_from old new t k
      | O =>
          if String.prefix old s
          then new ++ replace_from old new t (String.length old - 1)
          else String c (replace_from old new t 0)
      end
  end.

(** With an empty [old], Python puts [new] before every character and at
    the end. *)
Fixpoint intersperse (new s : string) : string :=
  match s with
  | EmptyString => new
  | String c t => new ++ String c (intersperse new t)
  end.

(** [s.replace(old, new)] *)
Definition replace (old new s : string) : string :=
  match old with
  | EmptyString => intersperse new s
  | String _ _ => replace_from old new s 0
  end.

(** [s.split(sep)] for a one-character separator *)
Fixpoint split (sep : ascii) (s : string) : list string :=
  match s with
  | EmptyString => [EmptyString]
  | String c t =>
      if Ascii.eqb c sep then EmptyString :: split sep t
      else match split sep t with
           | [] => [String c EmptyString]
           | p :: ps => String c p :: ps
           end
  end.

(** [sep.join(parts)] *)
Definition join (sep : string) (parts : list string) : string :=
  String.concat sep parts.

(** Python truthiness of an [Optional[str]]: neither [None] nor empty. *)
Definition truthy (o : option string) : bool :=
  match o with
  | Some (String _ _) => true
  | _ => false
  end.

(** [a or b] on [Optional[str]] *)
Definition por (a b : option string) : option string :=
  if truthy a then a else b.

(** [d.get(k, default)] *)
Definition get_or (d : gmap string string) (k dflt : string) : string :=
  default dflt (d !! k).

End PyStr.

(** ** Regular expressions of the [re] module, as far as the code uses them *)

Module Re.

(** A match object: [group(0)] and [group(1)]. *)
Record rmatch := { group0 : string; group1 : string }.

(** A pattern is given by its anchored matcher: the match that starts at
    the first character of the text, if there is one.  None of the
    patterns below matches the empty string. *)
Definition pattern := string -> option rmatch.

(** [pattern.search(s)], as a truth value *)
Fixpoint search (p : pattern) (s : string) : bool :=
  match p s with
  | Some _ => true
  | None =>
      match s with
      | EmptyString => false
      | String _ t => search p t
      end
  end.

(** [pattern.sub(repl, s)] with a callable [repl], which may raise.
    Matches are leftmost and do not overlap; [skip] counts the characters
    of the current match still to be passed over. *)
Fixpoint sub_from (p : pattern) (repl : rmatch -> option string)
         (s : string) (skip : nat) : option string :=
  match s with
  | EmptyString => Some EmptyString
  | String c t =>
      match skip with
      | S k => sub_from p repl t k
      | O =>
          match p s with
          | Some m =>
              r ← repl m;
              rest ← sub_from p repl t (String.length (group0 m) - 1);
              Some (r ++ rest)
          | None => String c <$> sub_from p repl t 0
          end
      end
  end.

Definition sub (p : pattern) (repl : rmatch -> option string)
           (s : string) : option string :=
  sub_from p repl s 0.

(** *** [PLACEHOLDER_RE = re.compile(r"\$\{([^}]+)\}")] *)

(** The characters before the first closing brace, and what follows it. *)
Fixpoint until_brace (s : string) : option (string * string) :=
  match s with
  | EmptyString => None
  | String c t =>
      if Ascii.eqb c "}" then Some (EmptyString, t)
      else '(n, r) ← until_brace t; Some (String c n, r)
  end.

Definition PLACEHOLDER_RE : pattern := fun s =>
  match s with
  | String "$" (String "{" t) =>
      match until_brace t with
      | Some (String c n, _) =>
          Some {| group0 := "${" ++ String c n ++ "}"; group1 := String c n |}
      | _ => None
      end
  | _ => None
  end.

(** *** [CONDITIONAL_RE = re.compile(r"([^|\s]+\|[^|\s]+)")] *)

(** [\s] on [str]: the characters for which [str.isspace] holds. *)
Definition is_space (c : ascii) : bool :=
  let n := nat_of_ascii c in
  (((9 <=? n) && (n <=? 13)) || ((28 <=? n) && (n <=? 32))
   || (n =? 133) || (n =? 160))%nat.

(** [[^|\s]] *)
Definition is_option_char (c : ascii) : bool :=
  negb (Ascii.eqb c "|") && negb (is_space c).

(** The longest run of option characters at the start of [s], and the
    rest. *)
Fixpoint take_run (s : string) : string * string :=
  match s with
  | EmptyString => (EmptyString, EmptyString)
  | String c t =>
      if is_option_char c
      then let '(r, rest) := take_run t in (String c r, rest)
      else (EmptyString, s)
  end.

Definition CONDITIONAL_RE : pattern := fun s =>
  match take_run s with
  | (String c a, String "|" t) =>
      match take_run t with
      | (String d b, _) =>
          let g := String c a ++ "|" ++ String d b in
          Some {| group0 := g; group1 := g |}
      | _ => None
      end
  | _ => None
  end.

(** *** Replacement templates

    [pattern.sub(repl, s)] with a string [repl] containing a backslash
    compiles [repl] as a template before it looks for a match (CPython
    3.12, [re._parser.parse_template]).  The patterns concerned have no
    group, so that the only valid group reference is [\g<0>]. *)

Inductive piece := Lit (s : string) | Whole.

Definition is_octal (c : ascii) : bool :=
  let n := nat_of_ascii c in ((48 <=? n) && (n <=? 55))%nat.
Definition is_digit (c : ascii) : bool :=
  let n := nat_of_ascii c in ((48 <=? n) && (n <=? 57))%nat.
Definition is_ascii_letter (c : ascii) : bool :=
  let n := nat_of_ascii c in
  (((65 <=? n) && (n <=? 90)) || ((97 <=? n) && (n <=? 122)))%nat.
Definition octal_value (c : ascii) : nat := (nat_of_ascii c - 48)%nat.
Definition chr (n : nat) : string := String (ascii_of_nat n) EmptyString.

(** The [ESCAPES] table *)
Definition escape_of (c : ascii) : option nat :=
  if Ascii.eqb c "a" then Some 7 else
  if Ascii.eqb c "b" then Some 8 else
  if Ascii.eqb c "f" then Some 12 else
  if Ascii.eqb c "n" then Some 10 else
  if Ascii.eqb c "r" then Some 13 else
  if Ascii.eqb c "t" then Some 9 else
  if Ascii.eqb c "v" then Some 11 else
  if Ascii.eqb c "\" then Some 92 else None.

(** A name of [\g<name>] made of ASCII digits only, with value 0. *)
Fixpoint all_zero (s : string) : bool :=
  match s with
  | EmptyString => true
  | String c t => Ascii.eqb c "0" && all_zero t
  end.

Fixpoint parse_template (s : string) : option (list piece) :=
  match s with
  | EmptyString => Some []
  | String c r =>
      if negb (Ascii.eqb c "\") then
        cons (Lit (String c EmptyString)) <$> parse_template r
      else
        match r with
        | EmptyString => None
        | String e r1 =>
            if Ascii.eqb e "g" then
              match r1 with
              | String lt r2 =>
                  if Ascii.eqb lt "<" then
                    (fix name_until (r3 : string) (name : string) {struct r3} :=
                       match r3 with
                       | EmptyString => None
                       | String d r4 =>
                           if Ascii.eqb d ">"
                           then match name with
                                | EmptyString => None
                                | String _ _ =>
                                    if all_zero name
                                    then cons Whole <$> parse_template r4
                                    else None
                                end
                           else name_until r4 (name ++ String d EmptyString)
                       end) r2 EmptyString
                  else None
              | EmptyString => None
              end
            else if Ascii.eqb e "0" then
              match r1 with
              | String d1 r2 =>
                  if is_octal d1 then
                    match r2 with
                    | String d2 r3 =>
                        if is_octal d2
                        then cons (Lit (chr ((8 * octal_value d1 + octal_value d2) mod 256)))
                               <$> parse_template r3
                        else cons (Lit (chr (octal_value d1))) <$> parse_template r2
                    | EmptyString =>
                        cons (Lit (chr (octal_value d1))) <$> parse_template r2
                    end
                  else cons (Lit (chr 0)) <$> parse_template r1
              | EmptyString => cons (Lit (chr 0)) <$> parse_template r1
              end
            else if is_digit e then
              match r1 with
              | String d1 (String d2 r3) =>
                  if is_octal e && is_octal d1 && is_octal d2 then
                    let v := (64 * octal_value e + 8 * octal_value d1 + octal_value d2)%nat in
                    if (255 <? v)%nat then None
                    else cons (Lit (chr v)) <$> parse_template r3
                  else None
              | _ => None
              end
            else
              match escape_of e with
              | Some n => cons (Lit (chr n)) <$> parse_template r1
              | None =>
                  if is_ascii_letter e then None
                  else cons (Lit (String c (String e EmptyString))) <$> parse_template r1
              end
        end
  end.

(** The text a compiled template stands for at a match. *)
Fixpoint expand (t : list piece) (whole : string) : string :=
  match t with
  | [] => EmptyString
  | Lit s :: t' => s ++ expand t' whole
  | Whole :: t' => whole ++ expand t' whole
  end.

(** The pattern [re.compile(re.escape(lit))] *)
Definition literal (lit : string) : pattern := fun s =>
  if String.prefix lit s then Some {| group0 := lit; group1 := lit |}
  else None.

(** [re.compile(re.escape(lit)).sub(repl, s)] with a string [repl] *)
Definition sub_template (lit repl s : string) : option string :=
  t ← parse_template repl;
  sub (literal lit) (fun m => Some (expand t (group0 m))) s.

End Re.

(** ** What the code reads from outside its arguments *)

(** The dictionary returned by [stream_discovery.discover_connect_streams]. *)
Record streams := {
  ctr_stream_arn : option string;
  contact_lens_stream_arn : option string
}.

Record world := {
  (** [discover_connect_streams(connect_instance_id, region)], a call to
      the Connect service; [None] when the call raises. *)
  discover_connect_streams : string -> option string -> option streams;
  (** [datetime.datetime.now(datetime.timezone.utc).isoformat()] *)
  utc_now_isoformat : string;
  (** [logging_utils.is_debug_enabled()], read from the process
      environment *)
  is_debug_enabled : bool
}.

(** ** utils/placeholder_utils.py *)

Module Placeholder.
Import PyStr.

(** A Python dict in insertion order. *)
Definition dict_set {V} (k : string) (v : V) (d : list (string * V))
  : list (string * V) :=
  if existsb (fun kv => String.eqb kv.1 k) d
  then map (fun kv => if String.eqb kv.1 k then (k, v) else kv) d
  else d ++ [(k, v)].

Definition dict_has {V} (k : string) (d : list (string * V)) : bool :=
  existsb (fun kv => String.eqb kv.1 k) d.

(** [x in ["", "LambdaPrefix", "lambdaPrefix"]] *)
Definition is_placeholder_name (x : string) : bool :=
  existsb (String.eqb x) [""; "LambdaPrefix"; "lambdaPrefix"].

(** The test [lambda_prefix and lambda_prefix not in [...]] that every
    function below makes on the prefix it has looked up; the prefix when
    the test succeeds. *)
Definition available (lambda_prefix : option string) : option string :=
  match lambda_prefix with
  | Some p => if truthy lambda_prefix && negb (is_placeholder_name p)
              then Some p else None
  | None => None
  end.

Definition role_arn (partition account_id lambda_prefix name : string) : string :=
  "arn:" ++ partition ++ ":iam::" ++ account_id ++ ":role/" ++ lambda_prefix ++ name.

Definition role_mappings (partition account_id lambda_prefix : string)
  : list (string * string) :=
  let arn := role_arn partition account_id lambda_prefix in
  [ ("MultiorgMigrationRole.Arn", arn "-MultiorgMigrationRole");
    ("MultiorgInvokeTelephonyIntegrationApiFunctionRoleResource.Arn",
      arn "-InvokeTelephonyIntegrationApiFunctionRole");
    ("MultiorgContactDataSyncFunctionRoleResource.Arn",
      arn "-ContactDataSyncFunctionRole");
    ("MultiorgPostCallAnalysisTriggerFunctionRoleResource.Arn",
      arn "-PostCallAnalysisTriggerFunctionRole");
    ("MultiorgInvokeSalesforceRestApiFunctionRoleResource.Arn",
      arn "-InvokeSalesforceRestApiFunctionRole");
    ("MultiorgKvsTranscriberRoleResource.Arn", arn "-KvsTranscriberRole");
    ("MultiorgKvsConsumerTriggerRoleResource.Arn", arn "-KvsConsumerTriggerRole");
    ("MultiorgContactLensConsumerFunctionRoleResource.Arn",
      arn "-ContactLensConsumerFunctionRole");
    ("MultiorgVoiceMailAudioProcessingRoleResource.Arn",
      arn "-VoiceMailAudioProcessingRole");
    ("MultiorgVoiceMailPackagingRoleResource.Arn", arn "-VoiceMailPackagingRole");
    ("MultiorgVoiceMailTranscribeRoleResource.Arn", arn "-VoiceMailTranscribeRole");
    ("MultiorgHandleContactEventsRoleResource.Arn", arn "-HandleContactEventsRole");
    ("MultiorgStreamDiscoveryFunctionRoleResource.Arn",
      arn "-StreamDiscoveryFunctionRole");
    ("S3SecretCacheTTLRole.Arn", arn "-S3SecretCacheTTLRole") ].

(** [for cf_ref, actual_arn in mappings.items(): text = text.replace(...)] *)
Definition replace_all (mappings : list (string * string)) (text : string) : string :=
  fold_left (fun t kv => replace kv.1 kv.2 t) mappings text.

Definition fix_multiorg_role_references
           (text : string) (replacements : gmap string string) : string :=
  match available (por (replacements !! "lambdaPrefix") (replacements !! "LambdaPrefix")) with
  | None => text
  | Some lambda_prefix =>
      let partition := get_or replacements "AWS::Partition" "aws" in
      let account_id := get_or replacements "AWS::AccountId" "${AWS::AccountId}" in
      replace_all (role_mappings partition account_id lambda_prefix) text
  end.

Definition CTR_REF := "MultiorgStreamDiscoveryCustomResource.CTRStreamArn".
Definition CONTACT_LENS_REF :=
  "MultiorgStreamDiscoveryCustomResource.ContactLensStreamArn".

Definition stream_arn (partition region account_id lambda_prefix name : string)
  : string :=
  "arn:" ++ partition ++ ":kinesis:" ++ region ++ ":" ++ account_id
    ++ ":stream/" ++ lambda_prefix ++ name.

(** The condition under which the streams are looked up: a stream
    reference in the text and a connect instance id that is set. *)
Definition wants_discovery (text : string) (connect_instance_id : option string)
  : bool :=
  (contains CTR_REF text || contains CONTACT_LENS_REF text)
  && truthy connect_instance_id
  && negb (bool_decide (connect_instance_id = Some "ConnectInstanceId")).

Definition fix_custom_resource_outputs (w : world)
           (text : string) (replacements : gmap string string) : string :=
  match available (por (replacements !! "lambdaPrefix") (replacements !! "LambdaPrefix")) with
  | None => text
  | Some lambda_prefix =>
      let partition := get_or replacements "AWS::Partition" "aws" in
      let account_id := get_or replacements "AWS::AccountId" "${AWS::AccountId}" in
      let region := get_or replacements "AWS::Region" "${AWS::Region}" in
      let connect_instance_id := replacements !! "ConnectInstanceId" in
      let custom_mappings : list (string * string) := [] in
      let custom_mappings :=
        if wants_discovery text connect_instance_id then
          match discover_connect_streams w (default "" connect_instance_id)
                  (if String.eqb region "${AWS::Region}" then None else Some region)
          with
          | Some discovered_streams =>
              let m1 :=
                match ctr_stream_arn discovered_streams with
                | Some (String c a) => dict_set CTR_REF (String c a) custom_mappings
                | _ => custom_mappings
                end in
              match contact_lens_stream_arn discovered_streams with
              | Some (String c a) => dict_set CONTACT_LENS_REF (String c a) m1
              | _ => m1
              end
          | None => custom_mappings
          end
        else custom_mappings in
      let custom_mappings :=
        if dict_has CTR_REF custom_mappings then custom_mappings
        else dict_set CTR_REF
               (stream_arn partition region account_id lambda_prefix "-CTRStream")
               custom_mappings in
      let custom_mappings :=
        if dict_has CONTACT_LENS_REF custom_mappings then custom_mappings
        else dict_set CONTACT_LENS_REF
               (stream_arn partition region account_id lambda_prefix "-ContactLensStream")
               custom_mappings in
      replace_all custom_mappings text
  end.

Definition clean_duplicate_prefixes
           (text : string) (replacements : gmap string string) : option string :=
  match available (por (replacements !! "lambdaPrefix") (replacements !! "LambdaPrefix")) with
  | None => Some text
  | Some lambda_prefix =>
      Re.sub_template (lambda_prefix ++ "-" ++ lambda_prefix ++ "-")
                      (lambda_prefix ++ "-") text
  end.

(** [PLACEHOLDER_RE.sub(lambda m: str(replacements.get(m.group(1), m.group(0))), text)] *)
Definition sub_placeholders (replacements : gmap string string) (text : string)
  : option string :=
  Re.sub Re.PLACEHOLDER_RE
         (fun m => Some (default (Re.group0 m) (replacements !! Re.group1 m)))
         text.

Definition replace_placeholders_in_string (w : world)
           (text : string) (replacements : gmap string string) : option string :=
  let text := fix_multiorg_role_references text replacements in
  let text := fix_custom_resource_outputs w text replacements in
  text ← sub_placeholders replacements text;
  clean_duplicate_prefixes text replacements.

Definition resolve_conditional_options (w : world)
           (option1 option2 : string) (replacements : gmap string string)
  : option string :=
  let option1_has_lambda_prefix :=
    contains "${LambdaPrefix}" option1 || contains "${lambdaPrefix}" option1 in
  let option2_has_lambda_prefix :=
    contains "${LambdaPrefix}" option2 || contains "${lambdaPrefix}" option2 in
  let lambda_prefix :=
    por (replacements !! "LambdaPrefix") (replacements !! "lambdaPrefix") in
  if option1_has_lambda_prefix && bool_decide (is_Some (available lambda_prefix))
  then replace_placeholders_in_string w option1 replacements
  else if option2_has_lambda_prefix && bool_decide (is_Some (available lambda_prefix))
  then replace_placeholders_in_string w option2 replacements
  else
    option1_resolved ← replace_placeholders_in_string w option1 replacements;
    if negb (Re.search Re.PLACEHOLDER_RE option1_resolved)
       && negb (startswith "-" option1_resolved)
    then Some option1_resolved
    else
      option2_resolved ← replace_placeholders_in_string w option2 replacements;
      if negb (Re.search Re.PLACEHOLDER_RE option2_resolved)
         && negb (startswith "-" option2_resolved)
      then Some option2_resolved
      else if negb (startswith "-" option1_resolved)
              && negb (startswith "-" option2_resolved)
      then
        if option1_has_lambda_prefix then Some option1_resolved
        else if option2_has_lambda_prefix then Some option2_resolved
        else Some option1_resolved
      else if negb (startswith "-" option1_resolved) then Some option1_resolved
      else if negb (startswith "-" option2_resolved) then Some option2_resolved
      else Some option1_resolved.

Definition replace_conditional_match (w : world)
           (replacements : gmap string string) (m : Re.rmatch) : option string :=
  let conditional_part := Re.group1 m in
  match split "|" conditional_part with
  | [option1; option2] => resolve_conditional_options w option1 option2 replacements
  | _ => Some (Re.group0 m)
  end.

Definition resolve_conditional_placeholder (w : world)
           (value : string) (replacements : gmap string string) : option string :=
  Re.sub Re.CONDITIONAL_RE (replace_conditional_match w replacements) value.

(** The documents [replace_placeholders] walks: what [json.load] yields.
    A dict is kept as its items in insertion order; a float is carried as
    its bits and never inspected. *)
#[local] Unset Elimination Schemes.
Inductive value :=
| VNull
| VBool (b : bool)
| VInt (z : Z)
| VFloat (bits : Z)
| VStr (s : string)
| VList (items : list value)
| VDict (items : list (string * value)).
#[local] Set Elimination Schemes.

Fixpoint replace_placeholders (w : world) (data : value)
         (replacements : gmap string string) : option value :=
  match data with
  | VDict items =>
      VDict <$> mapM (fun kv => pair kv.1 <$> replace_placeholders w kv.2 replacements) items
  | VList items =>
      VList <$> mapM (fun item => replace_placeholders w item replacements) items
  | VStr s =>
      resolved ← resolve_conditional_placeholder w s replacements;
      VStr <$> replace_placeholders_in_string w resolved replacements
  | _ => Some data
  end.

End Placeholder.

(** ** models/health_models.py and the report dictionaries *)

Module Models.

(** The [HealthCheckInput] dataclass. *)
Record HealthCheckInput := {
cc_version : string;
cc_name : string;
sku : string;
connect_instance_arn : string;
execution_id : option string;
region : option string;
connect_instance_id : option string;
account_id : option string;
partition : option string;
lambda_prefix : option string;
call_center_api_name : option string;
s3_bucket_for_tenant_resources : option string;
s3_bucket_for_reports : option string;
include_detailed_errors : bool;
max_threads : Z
}.

(** An item of [DetailedHealthCheck].  The code reads every key with
  [dict.get]: a field is [None] when the key is absent. *)
Record HealthCheck := {
ResourceName : option string;
status : option Z;
message : option string
}.

(** What a validator returns. *)
Record ResourceTypeReport := {
ResourceType : option string;
DetailedHealthCheck : option (list HealthCheck)
}.

End Models.
Import Models.

(** ** core/reporting.py *)

Module Reporting.
Import PyStr.

Record ExecutionMetadata := {
  em_execution_id : string;
  em_timestamp : string;
  em_version : string;
  (** a float, carried as its bits; present only with debug logging *)
  em_execution_time_ms : option Z
}.

Record InputParameters := {
  ip_cc_version : string;
  ip_cc_name : string;
  ip_sku : string;
  ip_execution_id : option string;
  ip_connect_instance_arn : string;
  ip_region : option string;
  ip_max_threads : Z
}.

Record Summary := {
  overall_status : string;
  total_resources : nat;
  healthy : nat;
  unhealthy : nat;
  warnings : nat;
  error_count : nat
}.

(** The report dictionary; a field is [None] when the key is absent. *)
Record Report := {
  execution_metadata : option ExecutionMetadata;
  input_parameters : option InputParameters;
  summary : option Summary;
  detailed_results : option (list ResourceTypeReport);
  errors : option (list string)
}.

(** The four counters of the summary loop. *)
Record counters := {
  c_total : nat;
  c_healthy : nat;
  c_unhealthy : nat;
  c_warning : nat
}.

(** The body of [for hc in health_checks] *)
Definition count_check (c : counters) (hc : HealthCheck) : counters :=
  let status := default 500%Z (status hc) in
  if (status =? 200)%Z then
    {| c_total := c_total c; c_healthy := c_healthy c + 1;
       c_unhealthy := c_unhealthy c; c_warning := c_warning c |}
  else if (status >=? 400)%Z then
    {| c_total := c_total c; c_healthy := c_healthy c;
       c_unhealthy := c_unhealthy c + 1; c_warning := c_warning c |}
  else
    {| c_total := c_total c; c_healthy := c_healthy c;
       c_unhealthy := c_unhealthy c; c_warning := c_warning c + 1 |}.

(** The body of [for report in full_report] *)
Definition count_report (c : counters) (report : ResourceTypeReport) : counters :=
  let health_checks := default [] (DetailedHealthCheck report) in
  let c := {| c_total := c_total c + length health_checks;
              c_healthy := c_healthy c;
              c_unhealthy := c_unhealthy c; c_warning := c_warning c |} in
  fold_left count_check health_checks c.

Definition generate_enhanced_report (w : world)
           (health_input : HealthCheckInput)
           (full_report : list ResourceTypeReport)
           (execution_id : string) (execution_time_ms : Z)
           (errors : list string) : Report :=
  let c := fold_left count_report full_report
             {| c_total := 0; c_healthy := 0; c_unhealthy := 0; c_warning := 0 |} in
  let overall_status :=
    if (0 <? c_unhealthy c)%nat then "UNHEALTHY"
    else if (0 <? c_warning c)%nat || negb (bool_decide (errors = [])) then "WARNING"
    else "HEALTHY" in
  let execution_metadata :=
    {| em_execution_id := execution_id;
       em_timestamp := utc_now_isoformat w;
       em_version := "refactored_v1.0";
       em_execution_time_ms :=
         if is_debug_enabled w then Some execution_time_ms else None |} in
  {| execution_metadata := Some execution_metadata;
     input_parameters := Some
       {| ip_cc_version := cc_version health_input;
          ip_cc_name := cc_name health_input;
          ip_sku := sku health_input;
          ip_execution_id := Models.execution_id health_input;
          ip_connect_instance_arn := connect_instance_arn health_input;
          ip_region := region health_input;
          ip_max_threads := max_threads health_input |};
     summary := Some
       {| overall_status := overall_status;
          total_resources := c_total c;
          healthy := c_healthy c;
          unhealthy := c_unhealthy c;
          warnings := c_warning c;
          error_count := length errors |};
     detailed_results := Some full_report;
     errors := Some errors |}.

(** The double quote character, and a field between double quotes. *)
Definition dq : string := String (ascii_of_nat 34) EmptyString.
Definition quoted (field : string) : string := dq ++ field ++ dq.

(** The line appended for one health check *)
Definition csv_line (resource_type : string) (health_check : HealthCheck) : string :=
  let resource_name := default "Unknown" (ResourceName health_check) in
  let status :=
    if bool_decide (status health_check = Some 200%Z) then "HEALTHY" else "UNHEALTHY" in
  let message := replace dq (dq ++ dq) (default "" (message health_check)) in
  quoted resource_name ++ "," ++ quoted resource_type ++ ","
    ++ quoted status ++ "," ++ quoted message.

(** The body of [for resource_type_report in ...] *)
Definition csv_lines_of (lines : list string)
           (resource_type_report : ResourceTypeReport) : list string :=
  let resource_type := default "Unknown" (ResourceType resource_type_report) in
  let health_checks := default [] (DetailedHealthCheck resource_type_report) in
  fold_left (fun lines hc => (lines ++ [csv_line resource_type hc])%list) health_checks lines.

Definition generate_csv_report (report : Report) : string :=
  let lines := ["ResourceName,ResourceType,Status,Message"] in
  let lines := fold_left csv_lines_of (default [] (detailed_results report)) lines in
  join (String (ascii_of_nat 10) EmptyString) lines.

End Reporting.

(** ** core/multithreading.py *)

Module Orchestrator.
Import PyStr.

(** What [future.result()] does for a completed task: return the
    validator's report, or raise; [e] is [str(e)]. *)
Inductive outcome :=
| Returned (result : ResourceTypeReport)
| Raised (e : string).

(** The state of a [MultiThreadedValidator]; the configuration only
    reaches the validators and is left out. *)
Record MultiThreadedValidator := {
  health_input : HealthCheckInput;
  results : list ResourceTypeReport;
  errors : list string;
  warnings : list string
}.

Definition with_errors (self : MultiThreadedValidator) (errs : list string)
  : MultiThreadedValidator :=
  {| health_input := health_input self; results := results self;
     errors := errs; warnings := warnings self |}.

(** The names under which the validators are registered, in order. *)
Definition task_names : list string :=
  [ "roles"; "lambdas"; "layers"; "policies"; "alarms"; "s3"; "kinesis";
    "kms_aliases"; "triggers"; "event_mappings"; "lambda_permissions" ].

(** [validation_tasks], each task with what it does when it is run. *)
Definition validation_tasks (run : string -> outcome) : list (string * outcome) :=
  map (fun task_name => (task_name, run task_name)) task_names.

(** The entry of [self.errors] for a health check that is not a 200 *)
Definition check_error (health_check : HealthCheck) : string :=
  default "Unknown" (ResourceName health_check) ++ ": "
    ++ default "Unknown error" (message health_check).

(** [for health_check in health_checks: if ... != 200: self.errors.append(...)] *)
Definition track_errors (errs : list string) (health_checks : list HealthCheck)
  : list string :=
  fold_left
    (fun errs hc =>
       if bool_decide (status hc = Some 200%Z) then errs
       else (errs ++ [check_error hc])%list)
    health_checks errs.

Definition error_msg (task_name e : string) : string :=
  "Failed to validate " ++ task_name ++ ": " ++ e.

(** The report appended for a task that raised *)
Definition failed_result (task_name e : string) : ResourceTypeReport :=
  {| ResourceType := Some ("Failed " ++ task_name);
     DetailedHealthCheck := Some
       [ {| ResourceName := Some task_name;
            status := Some 500%Z;
            message := Some (error_msg task_name e) |} ] |}.

(** The body of [for future in as_completed(future_to_task)], on the
    pair of [full_report] and [self.errors] *)
Definition collect (acc : list ResourceTypeReport * list string)
           (completed : string * outcome) : list ResourceTypeReport * list string :=
  let '(full_report, errs) := acc in
  let task_name := completed.1 in
  match completed.2 with
  | Returned result =>
      let full_report := (full_report ++ [result])%list in
      let health_checks := default [] (DetailedHealthCheck result) in
      (full_report, track_errors errs health_checks)
  | Raised e =>
      ((full_report ++ [failed_result task_name e])%list,
       (errs ++ [error_msg task_name e])%list)
  end.

(** [completed] lists the submitted tasks in the order in which
    [as_completed] yields their futures.  [ThreadPoolExecutor] raises
    [ValueError] when [max_workers] is not positive. *)
Definition validate_all_resources_parallel (self : MultiThreadedValidator)
           (completed : list (string * outcome))
  : option (list ResourceTypeReport * MultiThreadedValidator) :=
  if (max_threads (health_input self) <=? 0)%Z then None
  else
    let '(full_report, errs) := fold_left collect completed ([], errors self) in
    Some (full_report, with_errors self errs).

End Orchestrator.

(** ** More of Python's strings *)

Module PyChars.

(** [str.isalnum] on a character *)
Definition isalnum (c : ascii) : bool :=
  let n := nat_of_ascii c in
  (((48 <=? n) && (n <=? 57)) || ((65 <=? n) && (n <=? 90))
   || ((97 <=? n) && (n <=? 122))
   || (n =? 170) || (n =? 178) || (n =? 179) || (n =? 181) || (n =? 185)
   || (n =? 186) || ((188 <=? n) && (n <=? 190))
   || ((192 <=? n) && (n <=? 214)) || ((216 <=? n) && (n <=? 246))
   || (248 <=? n))%nat.

(** [str.lower] on a character *)
Definition lower_char (c : ascii) : ascii :=
  let n := nat_of_ascii c in
  if (((65 <=? n) && (n <=? 90)) || ((192 <=? n) && (n <=? 214))
      || ((216 <=? n) && (n <=? 222)))%nat
  then ascii_of_nat (n + 32) else c.

(** [s.lower()] *)
Fixpoint lower (s : string) : string :=
  match s with
  | EmptyString => EmptyString
  | String c t => String (lower_char c) (lower t)
  end.

(** [all(p(c) for c in s)] *)
Fixpoint all_chars (p : ascii -> bool) (s : string) : bool :=
  match s with
  | EmptyString => true
  | String c t => p c && all_chars p t
  end.

(** [s[:n]] *)
Fixpoint take (n : nat) (s : string) : string :=
  match n, s with
  | S k, String c t => String c (take k t)
  | _, _ => EmptyString
  end.

(** The rest of [s] after the prefix [p], when [s.startswith(p)] *)
Fixpoint strip_prefix (p s : string) : option string :=
  match p with
  | EmptyString => Some s
  | String a p' =>
      match s with
      | String b s' => if Ascii.eqb a b then strip_prefix p' s' else None
      | EmptyString => None
      end
  end.

(** The characters before the first colon, and what follows it. *)
Fixpoint until_colon (s : string) : option (string * string) :=
  match s with
  | EmptyString => None
  | String c t =>
      if Ascii.eqb c ":" then Some (EmptyString, t)
      else '(n, r) ← until_colon t; Some (String c n, r)
  end.

Definition LF : ascii := ascii_of_nat 10.

(** [.*$] from the start of [s]: the text of [s] when it is one line,
    with or without a final newline. *)
Fixpoint line_end (s : string) : option string :=
  match s with
  | EmptyString => Some EmptyString
  | String c t =>
      if Ascii.eqb c LF
      then match t with EmptyString => Some EmptyString | String _ _ => None end
      else String c <$> line_end t
  end.

(** [(.+)$] *)
Definition dot_plus_end (s : string) : option string :=
  match line_end s with
  | Some (String c l) => Some (String c l)
  | _ => None
  end.

(** [[0-9a-fA-F]] *)
Definition is_hex (c : ascii) : bool :=
  let n := nat_of_ascii c in
  (((48 <=? n) && (n <=? 57)) || ((65 <=? n) && (n <=? 70))
   || ((97 <=? n) && (n <=? 102)))%nat.

(** [[0-9a-fA-F]{n}]: the rest of [s] after exactly [n] such characters *)
Fixpoint hex_run (n : nat) (s : string) : option string :=
  match n with
  | O => Some s
  | S k =>
      match s with
      | String c t => if is_hex c then hex_run k t else None
      | EmptyString => None
      end
  end.

End PyChars.

(** A call that returns, or raises [ValueError(msg)]. *)
Inductive result (A : Type) :=
| Ok (a : A)
| ValueError (msg : string).
Arguments Ok {A} a.
Arguments ValueError {A} msg.

(** ** utils/arn_utils.py *)

Module Arn.
Import PyStr PyChars.

(** The dictionary [parse_connect_instance_arn] returns. *)
Record components := {
  partition : string;
  region : string;
  account_id : string;
  instance_id : string
}.

(** [re.match(r'^arn:([^:]+):connect:([^:]+):([^:]+):instance/(.+)$', arn)],
    the four groups *)
Definition match_arn_pattern (arn : string)
  : option (string * string * string * string) :=
  r ← strip_prefix "arn:" arn;
  '(partition, r) ← until_colon r;
  if String.eqb partition "" then None else
  r ← strip_prefix "connect:" r;
  '(region, r) ← until_colon r;
  if String.eqb region "" then None else
  '(account_id, r) ← until_colon r;
  if String.eqb account_id "" then None else
  r ← strip_prefix "instance/" r;
  instance_id ← dot_plus_end r;
  Some (partition, region, account_id, instance_id).

(** [re.match(uuid_pattern, instance_id)], as a truth value; [$] also
    matches before a final newline. *)
Definition match_uuid (instance_id : string) : bool :=
  match
    (r ← hex_run 8 instance_id; r ← strip_prefix "-" r;
     r ← hex_run 4 r; r ← strip_prefix "-" r;
     r ← hex_run 4 r; r ← strip_prefix "-" r;
     r ← hex_run 4 r; r ← strip_prefix "-" r;
     hex_run 12 r)
  with
  | Some r => String.eqb r "" || String.eqb r (String LF EmptyString)
  | None => false
  end.

Definition parse_connect_instance_arn (arn : string) : result components :=
  if String.eqb arn "" then ValueError "ARN cannot be empty" else
  match match_arn_pattern arn with
  | None => ValueError ("Invalid Connect instance ARN format: " ++ arn)
  | Some (partition, region, account_id, instance_id) =>
      if String.eqb partition "" then ValueError "Partition cannot be empty in ARN"
      else if String.eqb region "" then ValueError "Region cannot be empty in ARN"
      else if String.eqb account_id "" then ValueError "Account ID cannot be empty in ARN"
      else if String.eqb instance_id "" then ValueError "Instance ID cannot be empty in ARN"
      else if negb (match_uuid instance_id)
      then ValueError ("Invalid Connect instance ID format: " ++ instance_id)
      else Ok {| partition := partition; region := region;
                 account_id := account_id; instance_id := instance_id |}
  end.

(** [re.match(rf'^arn:[^:]+:{re.escape(service)}:[^:]*:[^:]*:.+', arn)] *)
Definition match_basic_pattern (arn service : string) : bool :=
  match
    (r ← strip_prefix "arn:" arn;
     '(partition, r) ← until_colon r;
     if String.eqb partition "" then None else
     r ← strip_prefix service r;
     r ← strip_prefix ":" r;
     '(_, r) ← until_colon r;
     '(_, r) ← until_colon r;
     Some r)
  with
  | Some (String c _) => negb (Ascii.eqb c LF)
  | _ => false
  end.

Definition validate_arn_format (arn service : string) : bool :=
  if String.eqb arn "" || String.eqb service "" then false
  else match_basic_pattern arn service.

Definition extract_region_from_arn (arn : string) : option string :=
  if String.eqb arn "" then None else
  let parts := split ":" arn in
  if (4 <=? length parts)%nat then
    match parts !! 3%nat with
    | Some region => if String.eqb region "" then None else Some region
    | None => None
    end
  else None.

Definition extract_account_id_from_arn (arn : string) : option string :=
  if String.eqb arn "" then None else
  let parts := split ":" arn in
  if (5 <=? length parts)%nat then
    match parts !! 4%nat with
    | Some account_id => if String.eqb account_id "" then None else Some account_id
    | None => None
    end
  else None.

End Arn.

(** ** utils/id_utils.py *)

Module IdUtils.
Import PyStr PyChars.

(** What [datetime.datetime.now(datetime.timezone.utc)] returns, as far as
    [strftime] reads it. *)
Record datetime := {
  year : nat; month : nat; day : nat;
  hour : nat; minute : nat; second : nat
}.

Definition digit (n : nat) : ascii := ascii_of_nat (48 + n mod 10).

(** A two-digit field: [%m], [%d], [%H], [%M], [%S] *)
Definition two_digits (n : nat) : string :=
  String (digit (n / 10)) (String (digit n) EmptyString).

(** [%Y], zero-padded to four digits *)
Definition four_digits (n : nat) : string :=
  String (digit (n / 1000)) (String (digit (n / 100)) (two_digits n)).

(** [now.strftime("%Y%m%d-%H%M%S")] *)
Definition strftime (now : datetime) : string :=
  four_digits (year now) ++ two_digits (month now) ++ two_digits (day now)
    ++ "-" ++ two_digits (hour now) ++ two_digits (minute now)
    ++ two_digits (second now).

(** [now] is the clock's reading and [uuid4] is [str(uuid.uuid4())]. *)
Definition generate_execution_id (now : datetime) (uuid4 : string) : string :=
  let timestamp := strftime now in
  let short_uuid := take 8 (replace "-" "" uuid4) in
  "hc-" ++ timestamp ++ "-" ++ short_uuid.

(** [c.isalnum() or c in ['-', '_']] *)
Definition id_char (c : ascii) : bool :=
  isalnum c || Ascii.eqb c "-" || Ascii.eqb c "_".

Definition is_valid_execution_id (execution_id : Placeholder.value) : bool :=
  match execution_id with
  | Placeholder.VStr s =>
      if String.eqb s "" then false
      else if (String.length s <? 3)%nat || (100 <? String.length s)%nat then false
      else if negb (all_chars id_char s) then false
      else true
  | _ => false
  end.

End IdUtils.

(** ** utils/aws_helpers.py, the functions that call no service *)

Module AwsHelpers.
Import PyStr.

(** [name in all_streams]; the set is the one [validate_kinesis] collects
    from the pages of [list_streams]. *)
Definition kinesis_stream_exists (name : string) (all_streams : gset string)
  : bool * string :=
  if bool_decide (name ∈ all_streams) then (true, "healthy")
  else (false, "Kinesis stream missing: " ++ name).

Definition combine_results (resource_name : string) (results : list (bool * string))
  : HealthCheck :=
  let failure_messages := map snd (List.filter (fun r => negb r.1) results) in
  match failure_messages with
  | [] => {| ResourceName := Some resource_name; status := Some 200%Z;
             message := Some "healthy" |}
  | _ :: _ =>
      let combined_message := join "; " failure_messages in
      {| ResourceName := Some resource_name; status := Some 500%Z;
         message := Some combined_message |}
  end.

End AwsHelpers.

(** ** utils/stream_discovery.py, the function that calls no service *)

Module StreamDiscovery.
Import PyStr Placeholder.

(** [None] is Python's [None]. *)
Definition resolve_dynamic_stream_references
           (event_source : value) (discovered_streams : streams) : option string :=
  match event_source with
  | VStr event_source =>
      if contains "MultiorgStreamDiscoveryCustomResource.CTRStreamArn" event_source
      then ctr_stream_arn discovered_streams
      else if contains "MultiorgStreamDiscoveryCustomResource.ContactLensStreamArn"
                event_source
      then contact_lens_stream_arn discovered_streams
      else Some event_source
  | _ => None
  end.

End StreamDiscovery.

(** ** models/input_parser.py *)

Module InputParser.
Import PyStr PyChars.

(** What [parse_input_parameters] reads besides its argument. *)
Record environment := {
  (** [os.environ] *)
  environ : gmap string string;
  (** [boto3.client("sts").get_caller_identity()["Account"]]; [None]
      when the call raises *)
  sts_account : option string;
  (** the clock and [str(uuid.uuid4())], read by [generate_execution_id] *)
  utcnow : IdUtils.datetime;
  uuid4 : string
}.

(** The event, with the three keys the parser reads; a field is [None]
    when the key is absent. *)
Record event := {
  ev_execution_id : option string;
  ev_max_threads : option Z;
  ev_include_detailed_errors : option bool
}.

Definition bind {A B} (r : result A) (k : A -> result B) : result B :=
  match r with
  | Ok a => k a
  | ValueError msg => ValueError msg
  end.

Definition partition_of (region : string) : string :=
  if startswith "cn-" region then "aws-cn"
  else if startswith "us-gov-" region then "aws-us-gov"
  else "aws".

(** [f"arn:{partition}:connect:{region}:{account_id}:instance/{connect_instance_id}"] *)
Definition connect_arn (partition region account_id connect_instance_id : string)
  : string :=
  "arn:" ++ partition ++ ":connect:" ++ region ++ ":" ++ account_id
    ++ ":instance/" ++ connect_instance_id.

(** The ARN built from the environment; [Ok None] without an instance id. *)
Definition build_arn (e : environment) : result (option string) :=
  let connect_instance_id := environ e !! "CONNECT_INSTANCE_ID" in
  if truthy connect_instance_id then
    let region := environ e !! "AWS_REGION" in
    match sts_account e, region with
    | Some account_id, Some region =>
        Ok (Some (connect_arn (partition_of region) region account_id
                    (default "" connect_instance_id)))
    | _, _ =>
        ValueError "Failed to determine AWS account ID and partition for ARN construction"
    end
  else Ok None.

Definition choose_execution_id (e : environment) (ev : event) : result string :=
  if truthy (ev_execution_id ev) then
    let execution_id := default "" (ev_execution_id ev) in
    if IdUtils.is_valid_execution_id (Placeholder.VStr execution_id)
    then Ok execution_id
    else ValueError ("Invalid execution_id format: " ++ execution_id)
  else Ok (IdUtils.generate_execution_id (utcnow e) (uuid4 e)).

Definition env_var_mapping : list (string * string) :=
  [ ("cc_version", "VERSION");
    ("cc_name", "CALL_CENTER_API_NAME");
    ("sku", "SKU");
    ("connect_instance_arn", "CONNECT_INSTANCE_ID (to build ARN)") ].

(** [field.upper()] is never reached: the four fields are in the mapping. *)
Definition missing_detail (field : string) : string :=
  let env_var :=
    default field (snd <$> List.find (fun kv => String.eqb kv.1 field) env_var_mapping) in
  field ++ " (requires " ++ env_var ++ " environment variable)".

(** The body of the [try] block. *)
Definition parse_body (e : environment) (ev : event) : result HealthCheckInput :=
  let cc_version := environ e !! "VERSION" in
  let cc_name := environ e !! "CALL_CENTER_API_NAME" in
  let sku := lower (get_or (environ e) "SKU" "") in
  bind (build_arn e) (fun connect_instance_arn =>
  let s3_bucket_for_tenant_resources := environ e !! "S3_BUCKET_FOR_TENANT_RESOURCES" in
  let s3_bucket_for_reports := environ e !! "S3_BUCKET_FOR_REPORTS" in
  let lambda_prefix := environ e !! "LAMBDA_PREFIX" in
  bind (choose_execution_id e ev) (fun execution_id =>
  let required_fields :=
    [ ("cc_version", cc_version); ("cc_name", cc_name); ("sku", Some sku);
      ("connect_instance_arn", connect_instance_arn) ] in
  let missing_fields :=
    map fst (List.filter (fun kv => negb (truthy kv.2)) required_fields) in
  match missing_fields with
  | _ :: _ =>
      ValueError ("Missing required environment variables: "
                    ++ join ", " (map missing_detail missing_fields))
  | [] =>
      let connect_instance_arn := default "" connect_instance_arn in
      match Arn.parse_connect_instance_arn connect_instance_arn with
      | ValueError msg => ValueError ("Invalid connect_instance_arn: " ++ msg)
      | Ok arn_components =>
          let region := Arn.region arn_components in
          let fallback_region := environ e !! "AWS_REGION" in
          let region :=
            if truthy fallback_region && String.eqb region ""
            then default "" fallback_region else region in
          if negb (truthy s3_bucket_for_tenant_resources) then
            ValueError "S3 bucket for tenant resources is required. Set environment variable 'S3_BUCKET_FOR_TENANT_RESOURCES'"
          else
            Ok {| cc_version := default "" cc_version;
                  cc_name := default "" cc_name;
                  sku := sku;
                  Models.execution_id := Some execution_id;
                  connect_instance_arn := connect_instance_arn;
                  s3_bucket_for_tenant_resources := s3_bucket_for_tenant_resources;
                  s3_bucket_for_reports := s3_bucket_for_reports;
                  Models.region := Some region;
                  connect_instance_id := Some (Arn.instance_id arn_components);
                  Models.account_id := Some (Arn.account_id arn_components);
                  Models.partition := Some (Arn.partition arn_components);
                  lambda_prefix := lambda_prefix;
                  call_center_api_name := cc_name;
                  include_detailed_errors := default true (ev_include_detailed_errors ev);
                  max_threads := default 10%Z (ev_max_threads ev) |}
      end
  end)).

(** [except Exception as e: raise ValueError(f"Failed to parse input parameters: {str(e)}")] *)
Definition parse_input_parameters (e : environment) (ev : event)
  : result HealthCheckInput :=
  match parse_body e ev with
  | Ok health_input => Ok health_input
  | ValueError msg => ValueError ("Failed to parse input parameters: " ++ msg)
  end.

End InputParser.

(** ** healthcheck.py, the steps of the handler that call no service *)

Module Handler.
Import PyStr Placeholder.

(** [x or d] for an [Optional[str]] [x] and a string [d] *)
Definition or_else (x : option string) (d : string) : string :=
  if truthy x then default d x else d.

(** The check on the components read off the input, before the
    placeholder map is built. *)
Definition check_components (health_input : HealthCheckInput) : result unit :=
  if negb (truthy (Models.account_id health_input))
     || negb (truthy (Models.partition health_input))
     || negb (truthy (connect_instance_id health_input))
  then ValueError "Invalid ARN components extracted"
  else Ok tt.

(** [placeholder_map], the region, account id and partition being
    the strings the handler has read off the input. *)
Definition placeholder_map (health_input : HealthCheckInput)
           (region ACCOUNT_ID partition : string) : gmap string string :=
  list_to_map
    [ ("AWS::Region", region);
      ("AWS::AccountId", ACCOUNT_ID);
      ("AWS::Partition", partition);
      ("ConnectInstanceId", or_else (connect_instance_id health_input) "ConnectInstanceId");
      ("CallCenterApiName", or_else (call_center_api_name health_input) "CallCenterApiName");
      ("S3BucketForTenantResources",
        or_else (s3_bucket_for_tenant_resources health_input) "S3BucketForTenantResources");
      ("LambdaPrefix", or_else (lambda_prefix health_input) "");
      ("lambdaPrefix", or_else (lambda_prefix health_input) "") ].


(** [d.get(k)] on a dict kept as its items *)
Definition dict_get (k : string) (d : list (string * value)) : option value :=
  snd <$> List.find (fun kv => String.eqb kv.1 k) d.

(** The body of [for mapping in cfg["EventSourceMappings"]], on the
    items of [mapping]; [None] when it raises [TypeError], which the test
    ["..." in original_source] does on a number, a boolean or null. *)
Definition resolve_mapping (mapping : list (string * value))
           (discovered_streams : streams) : option (list (string * value)) :=
  let original_source := default (VStr "") (dict_get "event_source" mapping) in
  let resolved_source :=
    StreamDiscovery.resolve_dynamic_stream_references original_source discovered_streams in
  match resolved_source with
  | Some resolved =>
      let differs :=
        match original_source with
        | VStr original => negb (String.eqb resolved original)
        | _ => true
        end in
      if differs then Some (dict_set "event_source" (VStr resolved) mapping)
      else Some mapping
  | None =>
      match original_source with
      | VStr _ | VList _ | VDict _ => Some mapping
      | _ => None
      end
  end.

End Handler.

(** ** utils/s3_utils.py, the lifecycle policy *)

Module S3Utils.

(** A lifecycle rule, with the keys the code reads or writes; a field is
    [None] when the key is absent, [rule_rest] holds the other keys. *)
Record rule := {
  rule_ID : option string;
  rule_Status : option string;
  (** [rule['Filter']], and in it [Prefix] *)
  rule_Filter : option (option string);
  rule_Expiration_Days : option Z;
  rule_rest : list (string * Placeholder.value)
}.

(** What [get_bucket_lifecycle_configuration] does: return a response
    with or without [Rules], raise [ClientError] with a code, or raise
    something else. *)
Inductive get_result :=
| Response (rules : option (list rule))
| ClientError (code : string)
| OtherError.

Definition health_report_rule : rule :=
  {| rule_ID := Some "DeleteHealthReports";
     rule_Status := Some "Enabled";
     rule_Filter := Some (Some "health_report/");
     rule_Expiration_Days := Some 1%Z;
     rule_rest := [] |}.

(** The test of the loop over the existing rules *)
Definition is_health_report_rule (r : rule) : bool :=
  let rule_filter := default None (rule_Filter r) in
  let prefix := default "" rule_filter in
  String.eqb prefix "health_report/"
  && bool_decide (rule_Status r = Some "Enabled").

(** The rules [put_bucket_lifecycle_configuration] is called with, if it
    is called. *)
Definition ensure_lifecycle_policy (got : get_result) : option (list rule) :=
  match got with
  | Response rules =>
      let existing_rules := default [] rules in
      if existsb is_health_report_rule existing_rules then None
      else Some (existing_rules ++ [health_report_rule])%list
  | ClientError code =>
      if String.eqb code "NoSuchLifecycleConfiguration"
      then Some [health_report_rule]
      else None
  | OtherError => None
  end.

End S3Utils.

(** ** validators/all_validators.py, the Kinesis validator *)

Module Validators.
Import PyStr AwsHelpers.

(** What listing the streams does: all pages are read, giving the set of
    their [StreamNames]; or the service raises [ClientError], [e] being
    [str(e)]; or the call raises something else. *)
Inductive listing :=
| Listed (all_streams : gset string)
| ListingFailed (e : string)
| ListingRaised.

(** [KinesisStreams] is [cfg.get("KinesisStreams")], a list of
    dictionaries, each given by its ["name"] ([None] when it has none, and
    [stream_config["name"]] raises [KeyError]).  The result is [None] when
    an exception leaves the function. *)
Definition validate_kinesis (KinesisStreams : option (list (option string)))
           (streams_listing : listing) : option ResourceTypeReport :=
  match streams_listing with
  | Listed all_streams =>
      health_checks ←
        mapM (fun stream_config : option string =>
                name ← stream_config;
                let '(is_healthy, msg) := kinesis_stream_exists name all_streams in
                Some (combine_results name [(is_healthy, msg)]))
             (default [] KinesisStreams);
      Some {| ResourceType := Some "Kinesis Stream";
              DetailedHealthCheck := Some health_checks |}
  | ListingFailed e =>
      Some {| ResourceType := Some "Kinesis Stream";
              DetailedHealthCheck := Some
                [ {| ResourceName := Some "All Kinesis Streams";
                     status := Some 500%Z;
                     message := Some ("Could not list Kinesis streams: " ++ e) |} ] |}
  | ListingRaised => None
  end.

End Validators.

(** * Specification-side definitions *)

(** ** The orchestrator *)

Module OrchestratorSpec.
Import Orchestrator.

(** The one entry a task contributes to the report list: its own report
    when it returns, and the placeholder report when it raises. *)
Definition entry_of (task : string * outcome) : ResourceTypeReport :=
  match task.2 with
  | Returned result => result
  | Raised e =>
      {| ResourceType := Some ("Failed " ++ task.1);
         DetailedHealthCheck := Some
           [ {| ResourceName := Some task.1;
                status := Some 500%Z;
                message := Some ("Failed to validate " ++ task.1 ++ ": " ++ e) |} ] |}
  end.

(** The entries a task contributes to the error list. *)
Definition errors_of (task : string * outcome) : list string :=
  match task.2 with
  | Returned result =>
      map (fun hc => default "Unknown" (ResourceName hc) ++ ": "
                       ++ default "Unknown error" (message hc))
          (filter (fun hc => status hc ≠ Some 200%Z)
                  (default [] (DetailedHealthCheck result)))
  | Raised e => ["Failed to validate " ++ task.1 ++ ": " ++ e]
  end.

End OrchestratorSpec.

(** ** The report aggregator *)

Module ReportingSpec.
Import Reporting.

Inductive bucket := Healthy | Unhealthy | Warning.

#[global] Instance bucket_eq_dec : EqDecision bucket.
Proof. solve_decision. Defined.

(** The status the summary reads off an item: [hc.get("status", 500)]. *)
Definition status_of (hc : HealthCheck) : Z := default 500%Z (status hc).

(** The three buckets, by status code. *)
Definition classify (st : Z) : bucket :=
  if decide (st = 200%Z) then Healthy
  else if decide (400 ≤ st)%Z then Unhealthy
  else Warning.

(** Every health check of every report, in order. *)
Definition all_checks (full_report : list ResourceTypeReport) : list HealthCheck :=
  flat_map (fun report => default [] (DetailedHealthCheck report)) full_report.

Definition in_bucket (b : bucket) (hc : HealthCheck) : Prop :=
  classify (status_of hc) = b.

#[global] Instance in_bucket_dec (b : bucket) (hc : HealthCheck) :
  Decision (in_bucket b hc).
Proof. unfold in_bucket. apply _. Defined.

Definition count (b : bucket) (checks : list HealthCheck) : nat :=
  length (filter (in_bucket b) checks).

(** The overall status, in the words of the specification. *)
Definition overall (checks : list HealthCheck) (errs : list string) : string :=
  if decide (Exists (in_bucket Unhealthy) checks) then "UNHEALTHY"
  else if decide (Exists (in_bucket Warning) checks ∨ errs ≠ []) then "WARNING"
  else "HEALTHY".

Definition add_counts (c : counters) (checks : list HealthCheck) : counters :=
  {| c_total := c_total c;
     c_healthy := c_healthy c + count Healthy checks;
     c_unhealthy := c_unhealthy c + count Unhealthy checks;
     c_warning := c_warning c + count Warning checks |}.

End ReportingSpec.

(** ** The CSV rendering *)

Module CsvSpec.
Import PyStr Reporting.

Definition quote_char : ascii := ascii_of_nat 34.
Definition newline : string := String (ascii_of_nat 10) EmptyString.

(** Every double quote doubled. *)
Fixpoint double_quotes (s : string) : string :=
  match s with
  | EmptyString => EmptyString
  | String c t =>
      if Ascii.eqb c quote_char
      then String c (String c (double_quotes t))
      else String c (double_quotes t)
  end.

(** A field as the specification words it: wrapped in double quotes, its
    own double quotes doubled. *)
Definition field (s : string) : string := dq ++ double_quotes s ++ dq.

Definition status_label (hc : HealthCheck) : string :=
  if decide (status hc = Some 200%Z) then "HEALTHY" else "UNHEALTHY".

Definition row (resource_type : option string) (hc : HealthCheck) : string :=
  field (default "Unknown" (ResourceName hc)) ++ ","
    ++ field (default "Unknown" resource_type) ++ ","
    ++ field (status_label hc) ++ ","
    ++ field (default "" (message hc)).

Definition rows_of (f : option string → HealthCheck → string)
           (report : Report) : list string :=
  flat_map (fun r => map (f (ResourceType r)) (default [] (DetailedHealthCheck r)))
           (default [] (detailed_results report)).

(** The rendering the specification describes. *)
Definition render_csv (report : Report) : string :=
  join newline ("ResourceName,ResourceType,Status,Message" :: rows_of row report).

(** The row the code writes: the message alone has its quotes doubled. *)
Definition written_row (resource_type : option string) (hc : HealthCheck) : string :=
  quoted (default "Unknown" (ResourceName hc)) ++ ","
    ++ quoted (default "Unknown" resource_type) ++ ","
    ++ quoted (status_label hc) ++ ","
    ++ field (default "" (message hc)).

End CsvSpec.

(** ** The placeholder resolver *)

Module PlaceholderSpec.
Import PyStr Placeholder.

(** The prefix that the fix-up and cleanup passes go by. *)
Definition cleanup_prefix (replacements : gmap string string) : option string :=
  available (por (replacements !! "lambdaPrefix") (replacements !! "LambdaPrefix")).

(** Whether the replacement [f"{lambda_prefix}-"] of the cleanup pass is
    a well-formed template; it is when no prefix is set. *)
Definition cleanup_compiles (replacements : gmap string string) : bool :=
  match cleanup_prefix replacements with
  | None => true
  | Some lambda_prefix =>
      match Re.parse_template (lambda_prefix ++ "-") with
      | Some _ => true
      | None => false
      end
  end.

Definition all2 {A B} (f : A → B → bool) : list A → list B → bool :=
  fix go l k :=
    match l, k with
    | [], [] => true
    | x :: l', y :: k' => f x y && go l' k'
    | _, _ => false
    end.

(** Two documents of the same structure: the same keys in the same
    order, sequences of the same length, the same scalars that are not
    strings, element by element; string leaves are free. *)
Fixpoint same_shape (a b : value) : bool :=
  match a, b with
  | VNull, VNull => true
  | VBool x, VBool y => Bool.eqb x y
  | VInt x, VInt y => (x =? y)%Z
  | VFloat x, VFloat y => (x =? y)%Z
  | VStr _, VStr _ => true
  | VList xs, VList ys => all2 same_shape xs ys
  | VDict xs, VDict ys =>
      all2 (fun p q => String.eqb p.1 q.1 && same_shape p.2 q.2) xs ys
  | _, _ => false
  end.

(** An option carries the priority token when it holds [${LambdaPrefix}]
    or [${lambdaPrefix}]. *)
Definition has_lambda_prefix (option : string) : bool :=
  contains "${LambdaPrefix}" option || contains "${lambdaPrefix}" option.

(** The value of the priority token that [resolve_conditional_options]
    goes by, when it is set: that of [LambdaPrefix], else that of
    [lambdaPrefix], unless it is empty or the name of the placeholder. *)
Definition priority_prefix (replacements : gmap string string) : option string :=
  available (por (replacements !! "LambdaPrefix") (replacements !! "lambdaPrefix")).

(** The first rule of [resolve_conditional_options] applies. *)
Definition priority_rule_fires (option1 option2 : string)
           (replacements : gmap string string) : bool :=
  (has_lambda_prefix option1 || has_lambda_prefix option2)
  && bool_decide (is_Some (priority_prefix replacements)).

(** Stream discovery can be attempted in this context: a lambda prefix
    is set and [ConnectInstanceId] has a value that is neither empty nor
    the name of the placeholder. *)
Definition discovery_possible (replacements : gmap string string) : bool :=
  bool_decide (is_Some (cleanup_prefix replacements))
  && truthy (replacements !! "ConnectInstanceId")
  && negb (bool_decide (replacements !! "ConnectInstanceId" = Some "ConnectInstanceId")).

(** Two worlds in which the resolver sees the same thing: no discovery
    is attempted, or discovery answers alike. *)
Definition same_discovery (w1 w2 : world) (replacements : gmap string string) : Prop :=
  discovery_possible replacements = false
  ∨ ∀ id rg, discover_connect_streams w1 id rg = discover_connect_streams w2 id rg.

End PlaceholderSpec.

(** ** Sample inputs *)

Module Samples.
Import Placeholder Reporting Orchestrator.

(** A world in which stream discovery fails. *)
Definition world0 : world :=
  {| discover_connect_streams := fun _ _ => None;
     utc_now_isoformat := "2024-01-01T00:00:00+00:00";
     is_debug_enabled := false |}.

(** A world in which the CTR stream of the instance is found. *)
Definition world_found : world :=
  {| discover_connect_streams := fun _ _ =>
       Some {| ctr_stream_arn := Some "arn:aws:kinesis:us-west-2:123456789012:stream/ctr";
               contact_lens_stream_arn := None |};
     utc_now_isoformat := "2024-06-30T12:00:00+00:00";
     is_debug_enabled := true |}.

Definition function_template : string :=
  "${CallCenterApiName}-Function|${LambdaPrefix}-Function".

Definition ctx_both : gmap string string :=
  <["CallCenterApiName" := "mycc"]> (<["LambdaPrefix" := "myorg"]> ∅).
Definition ctx_absent : gmap string string :=
  <["CallCenterApiName" := "mycc"]> ∅.
Definition ctx_empty : gmap string string :=
  <["CallCenterApiName" := "mycc"]> (<["LambdaPrefix" := ""]> ∅).
Definition ctx_sentinel : gmap string string :=
  <["CallCenterApiName" := "mycc"]>
    (<["LambdaPrefix" := "LambdaPrefix"]> (<["lambdaPrefix" := "multiorg"]> ∅)).
Definition ctx_upper : gmap string string :=
  <["CallCenterApiName" := "mycc"]> (<["LAMBDAPREFIX" := "myorg"]> ∅).
Definition ctx_scv : gmap string string :=
  <["lambdaPrefix" := "scv"]> (<["FunctionName" := "scv-Fn"]> ∅).
Definition ctx_backslash : gmap string string :=
  <["lambdaPrefix" := "a\q"]> ∅.
Definition ctx_discovery : gmap string string :=
  <["lambdaPrefix" := "scv"]>
    (<["ConnectInstanceId" := "12345678-1234-1234-1234-123456789012"]>
       (<["AWS::Region" := "us-west-2"]> (<["AWS::AccountId" := "123456789012"]> ∅))).

Definition document : value :=
  VDict [ ("LambdaFunctions",
           VList [ VDict [ ("name", VStr function_template);
                           ("timeout", VInt 30);
                           ("alias", VNull) ] ]);
          ("enabled", VBool true) ].

Definition health_input0 : HealthCheckInput :=
  {| cc_version := "19.0"; cc_name := "mycc"; sku := "resell";
     connect_instance_arn := "arn:aws:connect:us-west-2:123456789012:instance/i";
     Models.execution_id := None; region := Some "us-west-2";
     connect_instance_id := None; account_id := None; partition := None;
     lambda_prefix := None; call_center_api_name := None;
     s3_bucket_for_tenant_resources := None; s3_bucket_for_reports := None;
     include_detailed_errors := true; max_threads := 10 |}.

Definition validator0 : MultiThreadedValidator :=
  {| health_input := health_input0; results := []; errors := []; warnings := [] |}.

Definition healthy_check (name : string) : HealthCheck :=
  {| ResourceName := Some name; status := Some 200%Z; message := Some "ok" |}.

(** A run in which the lambdas validator raises, the s3 validator finds
    a missing bucket and every other validator finds one healthy
    resource. *)
Definition run0 (task_name : string) : outcome :=
  if String.eqb task_name "lambdas" then Raised "boom"
  else if String.eqb task_name "s3" then
    Returned {| ResourceType := Some "S3 Bucket";
                DetailedHealthCheck := Some
                  [ {| ResourceName := Some "reports"; status := Some 404%Z;
                       message := Some "Bucket not found" |} ] |}
  else Returned {| ResourceType := Some task_name;
                   DetailedHealthCheck := Some [healthy_check task_name] |}.

Definition tasks0 : list (string * outcome) := validation_tasks run0.

(** A run in which task x alone raises. *)
Definition tasks_x : list (string * outcome) :=
  [ ("a", Returned {| ResourceType := Some "A";
                      DetailedHealthCheck := Some [healthy_check "a1"; healthy_check "a2"] |});
    ("x", Raised "boom");
    ("b", Returned {| ResourceType := Some "B";
                      DetailedHealthCheck := Some [healthy_check "b1"] |}) ].

(** A health check without a status, and a report that holds it. *)
Definition statusless_check : HealthCheck :=
  {| ResourceName := Some "reports"; status := None; message := Some "no status" |}.
Definition statusless_report : ResourceTypeReport :=
  {| ResourceType := Some "S3 Bucket";
     DetailedHealthCheck := Some [healthy_check "logs"; statusless_check] |}.

(** A report whose only resource has a double quote in its name. *)
Definition quoted_name_report : Report :=
  {| execution_metadata := None; input_parameters := None; summary := None;
     detailed_results := Some
       [ {| ResourceType := Some "IAM Role";
            DetailedHealthCheck := Some
              [ {| ResourceName := Some ("my" ++ dq ++ "role");
                   status := Some 200%Z;
                   message := Some ("say " ++ dq ++ "ok" ++ dq) |} ] |} ];
     Reporting.errors := None |}.

End Samples.

(** ** Specification-side definitions for the other functions *)

Module ExtraSpec.
Import PyStr PyChars.

(** No colon in the string. *)
Definition colon_free (s : string) : bool :=
  all_chars (fun c => negb (Ascii.eqb c ":")) s.

(** The 36 characters of a UUID: groups of 8, 4, 4, 4 and 12 hexadecimal
    digits between hyphens. *)
Definition uuid36 (s : string) : bool :=
  match
    (r ← hex_run 8 s; r ← strip_prefix "-" r;
     r ← hex_run 4 r; r ← strip_prefix "-" r;
     r ← hex_run 4 r; r ← strip_prefix "-" r;
     r ← hex_run 4 r; r ← strip_prefix "-" r;
     hex_run 12 r)
  with
  | Some r => String.eqb r ""
  | None => false
  end.

(** The text of one line: no newline in it. *)
Definition one_line (s : string) : bool :=
  all_chars (fun c => negb (Ascii.eqb c LF)) s.

(** What follows the 36 characters of a UUID at the start of [s]. *)
Definition uuid_rest (s : string) : option string :=
  r ← hex_run 8 s; r ← strip_prefix "-" r;
  r ← hex_run 4 r; r ← strip_prefix "-" r;
  r ← hex_run 4 r; r ← strip_prefix "-" r;
  r ← hex_run 4 r; r ← strip_prefix "-" r;
  hex_run 12 r.

(** A component of an ARN: not empty, no colon. *)
Definition arn_field (s : string) : bool :=
  negb (String.eqb s "") && colon_free s.

(** A reading of the clock as [datetime] allows it, from year 1000 on. *)
Definition plausible (now : IdUtils.datetime) : Prop :=
  (1000 ≤ IdUtils.year now ∧ IdUtils.year now < 100 * 100
   ∧ 1 ≤ IdUtils.month now ≤ 12 ∧ 1 ≤ IdUtils.day now ≤ 31
   ∧ IdUtils.hour now < 24 ∧ IdUtils.minute now < 60
   ∧ IdUtils.second now < 60)%nat.

(** A string of hexadecimal digits and hyphens, as [str(uuid.uuid4())] is. *)
Definition hex_or_hyphen (s : string) : bool :=
  all_chars (fun c => is_hex c || Ascii.eqb c "-") s.

(** The item reported for a configured stream, given the listed ones. *)
Definition stream_item (all_streams : gset string) (name : string) : HealthCheck :=
  if bool_decide (name ∈ all_streams)
  then {| ResourceName := Some name; status := Some 200%Z; message := Some "healthy" |}
  else {| ResourceName := Some name; status := Some 500%Z;
          message := Some ("Kinesis stream missing: " ++ name) |}.

(** The entry of the orchestrator's error list for a missing stream. *)
Definition missing_stream_error (name : string) : string :=
  name ++ ": Kinesis stream missing: " ++ name.

End ExtraSpec.

(** ** Sample inputs for the other functions *)

Module ExtraSamples.

Definition sample_uuid : string := "187da78c-d6e4-4e39-a6f5-cc3d3310e7a2".

Definition sample_arn : string :=
  "arn:aws:connect:us-west-2:409137744801:instance/187da78c-d6e4-4e39-a6f5-cc3d3310e7a2".

Definition sample_now : IdUtils.datetime :=
  {| IdUtils.year := 2024; IdUtils.month := 12; IdUtils.day := 18;
     IdUtils.hour := 14; IdUtils.minute := 30; IdUtils.second := 52 |}.

Definition sample_environment : InputParser.environment :=
  {| InputParser.environ :=
       list_to_map
         [ ("VERSION", "19.0"); ("CALL_CENTER_API_NAME", "callorigintest");
           ("SKU", "MULTIORG"); ("CONNECT_INSTANCE_ID", sample_uuid);
           ("AWS_REGION", "us-west-2");
           ("S3_BUCKET_FOR_TENANT_RESOURCES", "callorigintest-409137744801");
           ("LAMBDA_PREFIX", "scvMultiorg") ];
     InputParser.sts_account := Some "409137744801";
     InputParser.utcnow := sample_now;
     InputParser.uuid4 := "a1b2c3d4-e5f6-4789-8abc-def012345678" |}.

Definition empty_event : InputParser.event :=
  {| InputParser.ev_execution_id := None;
     InputParser.ev_max_threads := None;
     InputParser.ev_include_detailed_errors := None |}.

Definition no_workers_event : InputParser.event :=
  {| InputParser.ev_execution_id := Some "run-1";
     InputParser.ev_max_threads := Some 0%Z;
     InputParser.ev_include_detailed_errors := None |}.

End ExtraSamples.

(** * Properties *)

(** ** The string operations and the patterns *)

Module PyStrFacts.
Import PyStr.

Lemma prefix_single (q c : ascii) (t : string) :
  String.prefix (String q EmptyString) (String c t) = Ascii.eqb q c.
Proof.
  cbn [String.prefix]. destruct (ascii_dec q c) as [->|Hne].
  - rewrite Ascii.eqb_refl. by destruct t.
  - symmetry. by apply Ascii.eqb_neq.
Qed.

Lemma replace_from_cons (old new : string) (c : ascii) (t : string) :
  replace_from old new (String c t) 0
  = if String.prefix old (String c t)
    then new ++ replace_from old new t (String.length old - 1)
    else String c (replace_from old new t 0).
Proof. reflexivity. Qed.

Lemma append_assoc (s t u : string) : (s ++ t) ++ u = s ++ t ++ u.
Proof.
  induction s as [|c s IH]; [reflexivity|].
  change (String c ((s ++ t) ++ u) = String c (s ++ t ++ u)). by rewrite IH.
Qed.

Lemma length_append (s t : string) :
  String.length (s ++ t) = (String.length s + String.length t)%nat.
Proof. induction s as [|c s IH]; [done|]. simpl. by rewrite IH. Qed.

Lemma drop_append (s t : string) : drop (String.length s) (s ++ t) = t.
Proof. induction s as [|c s IH]; [by destruct t|]. exact IH. Qed.

Lemma contains_app_single (c : ascii) (s t : string) :
  contains (String c EmptyString) (s ++ t)
  = contains (String c EmptyString) s || contains (String c EmptyString) t.
Proof.
  induction s as [|d s IH].
  - cbn [append]. by destruct t.
  - change (String d s ++ t) with (String d (s ++ t)).
    cbn [contains]. rewrite !prefix_single, IH. by rewrite orb_assoc.
Qed.

Example contains_token : contains "${LambdaPrefix}" "x-${LambdaPrefix}-y" = true.
Proof. reflexivity. Qed.
Example replace_leftmost : replace "ab" "X" "abcabab-a" = "XcXX-a".
Proof. reflexivity. Qed.
Example replace_no_overlap : replace "aa" "b" "aaa" = "ba".
Proof. reflexivity. Qed.
Example split_two : split "|" "a|b" = ["a"; "b"].
Proof. reflexivity. Qed.

End PyStrFacts.

Module ReFacts.
Import PyStr.

Lemma sub_from_cons (p : Re.pattern) (repl : Re.rmatch → option string)
      (c : ascii) (t : string) :
  Re.sub_from p repl (String c t) 0
  = match p (String c t) with
    | Some m =>
        r ← repl m;
        rest ← Re.sub_from p repl t (String.length (Re.group0 m) - 1);
        Some (r ++ rest)
    | None => String c <$> Re.sub_from p repl t 0
    end.
Proof. reflexivity. Qed.

Lemma sub_from_is_Some (p : Re.pattern) (repl : Re.rmatch → option string) :
  (∀ m, is_Some (repl m)) →
  ∀ (s : string) (skip : nat), is_Some (Re.sub_from p repl s skip).
Proof.
  intros Hrepl s. induction s as [|c t IH]; intros skip; [by eexists|].
  destruct skip as [|k]; cbn [Re.sub_from]; [|apply IH].
  destruct (p (String c t)) as [m|].
  - destruct (Hrepl m) as [r ->]. cbn.
    destruct (IH (String.length (Re.group0 m) - 1)) as [rest ->]. by eexists.
  - destruct (IH 0) as [rest ->]. by eexists.
Qed.

Lemma sub_from_skip (p : Re.pattern) (repl : Re.rmatch → option string)
      (s : string) (skip : nat) :
  (skip ≤ String.length s)%nat →
  Re.sub_from p repl s skip = Re.sub_from p repl (drop skip s) 0.
Proof.
  revert skip. induction s as [|c t IH]; intros [|k] Hk; try done.
  cbn [Re.sub_from drop]. apply IH. simpl in Hk. lia.
Qed.

Lemma sub_from_ext (p : Re.pattern) (f g : Re.rmatch → option string) :
  (∀ m, f m = g m) →
  ∀ (s : string) (skip : nat), Re.sub_from p f s skip = Re.sub_from p g s skip.
Proof.
  intros Hfg s. induction s as [|c t IH]; intros skip; [done|].
  destruct skip as [|k]; cbn [Re.sub_from]; [|apply IH].
  destruct (p (String c t)) as [m|]; [|by rewrite IH].
  rewrite Hfg. destruct (g m); [|done]. cbn. by rewrite IH.
Qed.

Lemma parse_template_plain (s : string) :
  contains "\" s = false → is_Some (Re.parse_template s).
Proof.
  induction s as [|c t IH]; intros Hs; [by eexists|].
  cbn [contains] in Hs. apply orb_false_iff in Hs as [Hc Ht].
  rewrite PyStrFacts.prefix_single in Hc.
  cbn [Re.parse_template]. rewrite Ascii.eqb_sym, Hc. cbn.
  destruct (IH Ht) as [pieces ->]. by eexists.
Qed.

Example placeholder_sub :
  Re.sub Re.PLACEHOLDER_RE (fun m => Some ("<" ++ Re.group1 m ++ ">")) "a${x}b${}${y"
  = Some "a<x>b${}${y".
Proof. reflexivity. Qed.
Example conditional_sub :
  Re.sub Re.CONDITIONAL_RE (fun m => Some "#") "x a|b|c|d e| f" = Some "x #|# e| f".
Proof. reflexivity. Qed.
Example template_literal : Re.sub_template "p-p-" "p-" "p-p-p-p-x" = Some "p-p-x".
Proof. reflexivity. Qed.
Example template_whole : Re.sub_template "ab" "[\g<0>]\n" "xab" = Some ("x[ab]" ++ Re.chr 10).
Proof. reflexivity. Qed.
Example template_bad_escape : Re.sub_template "a\q-a\q-" "a\q-" "x" = None.
Proof. reflexivity. Qed.
Example template_group_reference : Re.sub_template "a\1-a\1-" "a\1-" "x" = None.
Proof. reflexivity. Qed.

End ReFacts.

(** ** The orchestrator *)

Module OrchestratorProps.
Import Orchestrator OrchestratorSpec Samples.

Lemma track_errors_spec (checks : list HealthCheck) (errs : list string) :
  track_errors errs checks
  = (errs ++ map check_error (filter (fun hc => status hc ≠ Some 200%Z) checks))%list.
Proof.
  unfold track_errors. revert errs.
  induction checks as [|hc checks IH]; intros errs; simpl.
  - by rewrite app_nil_r.
  - rewrite IH, filter_cons. case_bool_decide; case_decide; try done.
    by rewrite <- app_assoc.
Qed.

Lemma collect_spec (completed : list (string * outcome))
      (full_report : list ResourceTypeReport) (errs : list string) :
  fold_left collect completed (full_report, errs)
  = ((full_report ++ map entry_of completed)%list,
     (errs ++ flat_map errors_of completed)%list).
Proof.
  revert full_report errs.
  induction completed as [|[task_name o] completed IH]; intros full_report errs; simpl.
  - by rewrite !app_nil_r.
  - destruct o as [result|e]; simpl; rewrite IH; unfold entry_of, errors_of; simpl.
    + rewrite track_errors_spec. by rewrite <- !app_assoc.
    + by rewrite <- !app_assoc.
Qed.

Lemma run_spec (self : MultiThreadedValidator) (completed : list (string * outcome)) :
  (0 < max_threads (health_input self))%Z →
  validate_all_resources_parallel self completed
  = Some (map entry_of completed,
          with_errors self (errors self ++ flat_map errors_of completed)%list).
Proof.
  intros Hpos. unfold validate_all_resources_parallel.
  destruct (Z.leb_spec (max_threads (health_input self)) 0) as [|_]; [lia|].
  by rewrite collect_spec.
Qed.

Lemma flat_map_Permutation {A B} (f : A → list B) (l k : list A) :
  l ≡ₚ k → flat_map f l ≡ₚ flat_map f k.
Proof.
  induction 1 as [|x l k _ IH|x y l|l k m _ IH1 _ IH2]; simpl.
  - done.
  - by rewrite IH.
  - by rewrite !app_assoc, (Permutation_app_comm (f y) (f x)).
  - by rewrite IH1.
Qed.

(** C1. Whatever the order in which the tasks of a registry complete and
    however many of them raise, the orchestrator returns a report list
    with exactly one entry per registered task: the task's own report
    when it returned, the synthesized failure report when it raised.  In
    particular the list has the length of the registry. *)
Theorem task_count_invariant
        (self : MultiThreadedValidator) (tasks completed : list (string * outcome)) :
  completed ≡ₚ tasks →
  (0 < max_threads (health_input self))%Z →
  ∃ full_report self',
    validate_all_resources_parallel self completed = Some (full_report, self')
    ∧ length full_report = length tasks
    ∧ full_report = map entry_of completed
    ∧ full_report ≡ₚ map entry_of tasks.
Proof.
  intros Hperm Hpos. eexists _, _. split; [by apply run_spec|].
  split; [|split]; [|done|].
  - by rewrite length_map, Hperm.
  - by rewrite Hperm.
Qed.

(** C2. On a fresh validator the error list holds, for every task that
    raised, the entry "Failed to validate {task_name}: {error}", and for
    every health check of a returned report whose status is not 200 the
    entry "{ResourceName}: {message}" (a missing name reads "Unknown", a
    missing message "Unknown error"), and nothing else; a task that
    raised is reported by the placeholder report of status 500. *)
Theorem error_accumulation
        (self : MultiThreadedValidator) (tasks completed : list (string * outcome)) :
  completed ≡ₚ tasks →
  (0 < max_threads (health_input self))%Z →
  errors self = [] →
  ∃ full_report self',
    validate_all_resources_parallel self completed = Some (full_report, self')
    ∧ errors self' = flat_map errors_of completed
    ∧ errors self' ≡ₚ flat_map errors_of tasks
    ∧ ∀ task_name e, (task_name, Raised e) ∈ tasks →
        {| ResourceType := Some ("Failed " ++ task_name);
           DetailedHealthCheck := Some
             [ {| ResourceName := Some task_name;
                  status := Some 500%Z;
                  message := Some ("Failed to validate " ++ task_name ++ ": " ++ e) |} ] |}
        ∈ full_report.
Proof.
  intros Hperm Hpos Hfresh. eexists _, _. split; [by apply run_spec|].
  simpl. rewrite Hfresh. simpl. split; [done|]. split.
  - by apply flat_map_Permutation.
  - intros task_name e Hin. rewrite Hperm.
    apply (list_elem_of_fmap_2 entry_of) in Hin. exact Hin.
Qed.

Lemma task_count_invariant_witness :
  reverse tasks0 ≡ₚ tasks0
  ∧ (0 < max_threads (health_input validator0))%Z
  ∧ ∃ full_report self',
      validate_all_resources_parallel validator0 (reverse tasks0)
      = Some (full_report, self')
      ∧ length full_report = length tasks0
      ∧ full_report = map entry_of (reverse tasks0)
      ∧ full_report ≡ₚ map entry_of tasks0.
Proof.
  split; [apply reverse_Permutation|]. split; [reflexivity|].
  apply (task_count_invariant validator0 tasks0 (reverse tasks0)).
  - apply reverse_Permutation.
  - reflexivity.
Defined.

Lemma error_accumulation_witness :
  reverse tasks_x ≡ₚ tasks_x
  ∧ (0 < max_threads (health_input validator0))%Z
  ∧ errors validator0 = []
  ∧ ∃ full_report self',
      validate_all_resources_parallel validator0 (reverse tasks_x)
      = Some (full_report, self')
      ∧ errors self' = flat_map errors_of (reverse tasks_x)
      ∧ errors self' ≡ₚ flat_map errors_of tasks_x
      ∧ ∀ task_name e, (task_name, Raised e) ∈ tasks_x →
          {| ResourceType := Some ("Failed " ++ task_name);
             DetailedHealthCheck := Some
               [ {| ResourceName := Some task_name;
                    status := Some 500%Z;
                    message := Some ("Failed to validate " ++ task_name ++ ": " ++ e) |} ] |}
          ∈ full_report.
Proof.
  split; [apply reverse_Permutation|]. split; [reflexivity|]. split; [reflexivity|].
  apply (error_accumulation validator0 tasks_x (reverse tasks_x)).
  - apply reverse_Permutation.
  - reflexivity.
  - reflexivity.
Defined.

(** The registry of the code has eleven tasks: a run returns eleven
    reports, here with the lambdas validator raising. *)
Example eleven_reports :
  ∃ full_report self',
    validate_all_resources_parallel validator0 (reverse tasks0)
    = Some (full_report, self')
    ∧ length full_report = 11%nat
    ∧ errors self' = ["reports: Bucket not found"; "Failed to validate lambdas: boom"].
Proof. eexists _, _. split; [reflexivity|]. split; reflexivity. Qed.

(** One task x raising "boom" among tasks whose checks are all 200. *)
Example one_failure :
  ∃ full_report self',
    validate_all_resources_parallel validator0 tasks_x = Some (full_report, self')
    ∧ errors self' = ["Failed to validate x: boom"]
    ∧ full_report !! 1%nat
      = Some {| ResourceType := Some "Failed x";
                DetailedHealthCheck := Some
                  [ {| ResourceName := Some "x"; status := Some 500%Z;
                       message := Some "Failed to validate x: boom" |} ] |}.
Proof. eexists _, _. split; [reflexivity|]. split; reflexivity. Qed.

(** [ThreadPoolExecutor] refuses a pool without workers: nothing is
    returned. *)
Lemma no_workers (self : MultiThreadedValidator) (completed : list (string * outcome)) :
  (max_threads (health_input self) ≤ 0)%Z →
  validate_all_resources_parallel self completed = None.
Proof.
  intros Hle. unfold validate_all_resources_parallel.
  by destruct (Z.leb_spec (max_threads (health_input self)) 0) as [_|]; [|lia].
Qed.

End OrchestratorProps.

(** ** The report aggregator *)

Module ReportingProps.
Import Reporting ReportingSpec Samples.

Lemma counters_eq (c d : counters) :
  c_total c = c_total d → c_healthy c = c_healthy d →
  c_unhealthy c = c_unhealthy d → c_warning c = c_warning d → c = d.
Proof. destruct c, d; simpl; congruence. Qed.

Lemma count_cons (b : bucket) (hc : HealthCheck) (checks : list HealthCheck) :
  count b (hc :: checks)
  = ((if decide (in_bucket b hc) then 1 else 0) + count b checks)%nat.
Proof. unfold count. rewrite filter_cons. by case_decide. Qed.

Lemma count_app (b : bucket) (l k : list HealthCheck) :
  count b (l ++ k) = (count b l + count b k)%nat.
Proof. unfold count. by rewrite filter_app, length_app. Qed.

Lemma count_check_classify (c : counters) (hc : HealthCheck) :
  count_check c hc = add_counts c [hc].
Proof.
  unfold count_check, add_counts. rewrite !count_cons. fold (status_of hc).
  unfold count. simpl.
  destruct (Z.eqb_spec (status_of hc) 200) as [He|He];
    [|destruct (Z.geb_spec (status_of hc) 400) as [Hg|Hg]];
    repeat case_decide; unfold in_bucket, classify in *;
    repeat case_decide; try done; try lia;
    apply counters_eq; simpl; lia.
Qed.

Lemma fold_count_check (checks : list HealthCheck) (c : counters) :
  fold_left count_check checks c = add_counts c checks.
Proof.
  revert c. induction checks as [|hc checks IH]; intros c; simpl.
  - apply counters_eq; simpl; unfold count; simpl; lia.
  - rewrite IH, count_check_classify. unfold add_counts; simpl.
    rewrite !(count_cons _ hc checks), !(count_cons _ hc []).
    apply counters_eq; simpl; unfold count; simpl; lia.
Qed.

Lemma fold_count_report (full_report : list ResourceTypeReport) (c : counters) :
  fold_left count_report full_report c
  = {| c_total := c_total c + length (all_checks full_report);
       c_healthy := c_healthy c + count Healthy (all_checks full_report);
       c_unhealthy := c_unhealthy c + count Unhealthy (all_checks full_report);
       c_warning := c_warning c + count Warning (all_checks full_report) |}.
Proof.
  revert c. induction full_report as [|report full_report IH]; intros c; simpl.
  - apply counters_eq; simpl; unfold count; simpl; lia.
  - rewrite IH. unfold count_report. rewrite fold_count_check.
    rewrite !count_app, length_app.
    apply counters_eq; simpl; lia.
Qed.

(** Every item lies in exactly one bucket, so the buckets add up. *)
Lemma count_total (checks : list HealthCheck) :
  length checks
  = (count Healthy checks + count Unhealthy checks + count Warning checks)%nat.
Proof.
  induction checks as [|hc checks IH]; [done|].
  rewrite !count_cons. simpl. rewrite IH.
  repeat case_decide; unfold in_bucket in *;
    destruct (classify (status_of hc)); try congruence; lia.
Qed.

Lemma count_pos (b : bucket) (checks : list HealthCheck) :
  (0 < count b checks)%nat ↔ Exists (in_bucket b) checks.
Proof.
  induction checks as [|hc checks IH].
  - split; [unfold count; simpl; lia | by intros ?%Exists_nil].
  - rewrite count_cons, Exists_cons.
    case_decide; [split; [by left | lia]|].
    simpl. rewrite IH. split; [by right|]. by intros [?|?].
Qed.

(** What the summary of a report is, in terms of the buckets. *)
Lemma summary_spec (w : world) (health_input : HealthCheckInput)
      (full_report : list ResourceTypeReport) (execution_id : string)
      (execution_time_ms : Z) (errs : list string) :
  summary (generate_enhanced_report w health_input full_report
             execution_id execution_time_ms errs)
  = Some {| overall_status := overall (all_checks full_report) errs;
            total_resources := length (all_checks full_report);
            healthy := count Healthy (all_checks full_report);
            unhealthy := count Unhealthy (all_checks full_report);
            warnings := count Warning (all_checks full_report);
            error_count := length errs |}.
Proof.
  unfold generate_enhanced_report. simpl. rewrite fold_count_report. simpl.
  f_equal. f_equal. unfold overall.
  destruct (Nat.ltb_spec 0 (count Unhealthy (all_checks full_report))) as [Hu|Hu].
  { by rewrite decide_True by by apply count_pos. }
  rewrite decide_False by (rewrite <- count_pos; lia).
  destruct (Nat.ltb_spec 0 (count Warning (all_checks full_report))) as [Hw|Hw].
  { simpl. by rewrite decide_True by (left; by apply count_pos). }
  simpl. case_bool_decide as He; simpl.
  - rewrite decide_False; [done|]. rewrite <- count_pos. intros [?|?]; [lia|done].
  - by rewrite decide_True by by right.
Qed.

(** C4. The summary puts every health check of every report in exactly
    one of three buckets, healthy (status 200), unhealthy (status 400 or
    more) and warning (any other status), the status of an item being
    [hc.get("status", 500)]; the overall status is "UNHEALTHY" when some
    item is unhealthy, else "WARNING" when some item is a warning or the
    error list is not empty, else "HEALTHY". *)
Theorem summary_classification (w : world) (health_input : HealthCheckInput)
        (full_report : list ResourceTypeReport) (execution_id : string)
        (execution_time_ms : Z) (errs : list string) :
  ∃ s : Summary,
    summary (generate_enhanced_report w health_input full_report
               execution_id execution_time_ms errs) = Some s
    ∧ healthy s = count Healthy (all_checks full_report)
    ∧ unhealthy s = count Unhealthy (all_checks full_report)
    ∧ warnings s = count Warning (all_checks full_report)
    ∧ total_resources s = length (all_checks full_report)
    ∧ total_resources s = (healthy s + unhealthy s + warnings s)%nat
    ∧ overall_status s =
        if decide (Exists (fun hc => status_of hc ≠ 200%Z ∧ (400 ≤ status_of hc)%Z)
                          (all_checks full_report))
        then "UNHEALTHY"
        else if decide (Exists (fun hc => status_of hc ≠ 200%Z ∧ ¬ (400 ≤ status_of hc)%Z)
                               (all_checks full_report) ∨ errs ≠ [])
        then "WARNING"
        else "HEALTHY".
Proof.
  eexists. split; [apply summary_spec|]. simpl.
  repeat split; try done; [apply count_total|].
  unfold overall.
  assert (HU : ∀ hc, in_bucket Unhealthy hc ↔ status_of hc ≠ 200%Z ∧ (400 ≤ status_of hc)%Z).
  { intros hc. unfold in_bucket, classify. repeat case_decide; split; try done; lia. }
  assert (HW : ∀ hc, in_bucket Warning hc ↔ status_of hc ≠ 200%Z ∧ ¬ (400 ≤ status_of hc)%Z).
  { intros hc. unfold in_bucket, classify. repeat case_decide; split; try done; lia. }
  assert (EU : Exists (in_bucket Unhealthy) (all_checks full_report)
               ↔ Exists (fun hc => status_of hc ≠ 200%Z ∧ (400 ≤ status_of hc)%Z)
                        (all_checks full_report)).
  { rewrite !Exists_exists. by setoid_rewrite HU. }
  assert (EW : Exists (in_bucket Warning) (all_checks full_report)
               ↔ Exists (fun hc => status_of hc ≠ 200%Z ∧ ¬ (400 ≤ status_of hc)%Z)
                        (all_checks full_report)).
  { rewrite !Exists_exists. by setoid_rewrite HW. }
  repeat case_decide; try done; tauto.
Qed.

(** C10. A health check without a status is read as status 500: the
    summary loop counts it as unhealthy and as nothing else, so that one
    such item in any report makes the overall status "UNHEALTHY". *)
Theorem missing_status_is_unhealthy (w : world) (health_input : HealthCheckInput)
        (full_report : list ResourceTypeReport) (execution_id : string)
        (execution_time_ms : Z) (errs : list string)
        (report : ResourceTypeReport) (hc : HealthCheck) :
  report ∈ full_report →
  hc ∈ default [] (DetailedHealthCheck report) →
  status hc = None →
  (∀ c : counters,
      count_check c hc
      = {| c_total := c_total c; c_healthy := c_healthy c;
           c_unhealthy := c_unhealthy c + 1; c_warning := c_warning c |})
  ∧ ∃ s : Summary,
      summary (generate_enhanced_report w health_input full_report
                 execution_id execution_time_ms errs) = Some s
      ∧ (0 < unhealthy s)%nat
      ∧ overall_status s = "UNHEALTHY".
Proof.
  intros Hreport Hhc Hstatus. split.
  - intros c. unfold count_check. by rewrite Hstatus.
  - eexists. split; [apply summary_spec|]. simpl.
    assert (Hex : Exists (in_bucket Unhealthy) (all_checks full_report)).
    { apply Exists_exists. exists hc. split.
      - unfold all_checks. apply list_elem_of_In, in_flat_map.
        exists report. by rewrite <- !list_elem_of_In.
      - unfold in_bucket, status_of. by rewrite Hstatus. }
    split; [by apply count_pos|].
    unfold overall. by rewrite decide_True.
Qed.

Lemma missing_status_is_unhealthy_witness :
  statusless_report ∈ [statusless_report]
  ∧ statusless_check ∈ default [] (DetailedHealthCheck statusless_report)
  ∧ status statusless_check = None
  ∧ (∀ c : counters,
        count_check c statusless_check
        = {| c_total := c_total c; c_healthy := c_healthy c;
             c_unhealthy := c_unhealthy c + 1; c_warning := c_warning c |})
  ∧ ∃ s : Summary,
      summary (generate_enhanced_report world0 health_input0 [statusless_report]
                 "exec-1" 0 []) = Some s
      ∧ (0 < unhealthy s)%nat
      ∧ overall_status s = "UNHEALTHY".
Proof.
  assert (H1 : statusless_report ∈ [statusless_report]) by apply list_elem_of_here.
  assert (H2 : statusless_check ∈ default [] (DetailedHealthCheck statusless_report)).
  { apply list_elem_of_further, list_elem_of_here. }
  split; [exact H1|]. split; [exact H2|]. split; [reflexivity|].
  exact (missing_status_is_unhealthy world0 health_input0 [statusless_report]
           "exec-1" 0 [] statusless_report statusless_check H1 H2 eq_refl).
Defined.

Example all_healthy :
  overall_status <$> summary
    (generate_enhanced_report world0 health_input0
       [ {| ResourceType := Some "A";
            DetailedHealthCheck := Some [healthy_check "a"; healthy_check "b"] |} ]
       "exec-1" 0 [])
  = Some "HEALTHY".
Proof. reflexivity. Qed.

Example warning_by_errors :
  overall_status <$> summary
    (generate_enhanced_report world0 health_input0
       [ {| ResourceType := Some "A"; DetailedHealthCheck := Some [healthy_check "a"] |} ]
       "exec-1" 0 ["late"])
  = Some "WARNING".
Proof. reflexivity. Qed.

Example warning_by_redirect :
  overall_status <$> summary
    (generate_enhanced_report world0 health_input0
       [ {| ResourceType := Some "A";
            DetailedHealthCheck := Some
              [ {| ResourceName := Some "a"; status := Some 301%Z; message := None |} ] |} ]
       "exec-1" 0 [])
  = Some "WARNING".
Proof. reflexivity. Qed.

End ReportingProps.

(** ** The CSV rendering *)

Module CsvProps.
Import PyStr Reporting CsvSpec Samples.

Lemma replace_quote (s : string) : replace dq (dq ++ dq) s = double_quotes s.
Proof.
  unfold replace, dq. cbn [append].
  induction s as [|c t IH]; [done|].
  rewrite PyStrFacts.replace_from_cons, PyStrFacts.prefix_single. cbn [String.length Nat.sub double_quotes].
  rewrite IH, (Ascii.eqb_sym c). unfold quote_char.
  by destruct (Ascii.eqb_spec (ascii_of_nat 34) c) as [<-|_].
Qed.

Lemma csv_line_written (resource_type : option string) (hc : HealthCheck) :
  csv_line (default "Unknown" resource_type) hc = written_row resource_type hc.
Proof.
  unfold csv_line, written_row, field. rewrite replace_quote.
  unfold status_label, quoted. by case_bool_decide; case_decide.
Qed.

Lemma fold_csv_lines (resource_type : string) (checks : list HealthCheck)
      (lines : list string) :
  fold_left (fun lines hc => (lines ++ [csv_line resource_type hc])%list) checks lines
  = (lines ++ map (csv_line resource_type) checks)%list.
Proof.
  revert lines. induction checks as [|hc checks IH]; intros lines; simpl.
  - by rewrite app_nil_r.
  - by rewrite IH, <- app_assoc.
Qed.

Lemma fold_csv_lines_of (results : list ResourceTypeReport) (lines : list string) :
  fold_left csv_lines_of results lines
  = (lines ++ flat_map (fun r => map (written_row (ResourceType r))
                                     (default [] (DetailedHealthCheck r)))
                       results)%list.
Proof.
  revert lines. induction results as [|r results IH]; intros lines; simpl.
  - by rewrite app_nil_r.
  - rewrite IH. unfold csv_lines_of. rewrite fold_csv_lines, <- app_assoc.
    f_equal. f_equal. apply map_ext. intros hc. apply csv_line_written.
Qed.

(** What [generate_csv_report] writes, for every report. *)
Lemma generate_csv_report_written (report : Report) :
  generate_csv_report report
  = join newline ("ResourceName,ResourceType,Status,Message" :: rows_of written_row report).
Proof. unfold generate_csv_report. by rewrite fold_csv_lines_of. Qed.

(** C8, at a resource name that holds a double quote: the header, the
    quoting of every field, the status label and the doubling of the
    quotes of the message are as specified, but the quote inside the
    name is written as it is, where the specification doubles it. *)
Theorem csv_name_quote_not_doubled :
  generate_csv_report quoted_name_report
  = "ResourceName,ResourceType,Status,Message" ++ newline
      ++ dq ++ "my" ++ dq ++ "role" ++ dq ++ ","
      ++ dq ++ "IAM Role" ++ dq ++ ","
      ++ dq ++ "HEALTHY" ++ dq ++ ","
      ++ dq ++ "say " ++ dq ++ dq ++ "ok" ++ dq ++ dq ++ dq
  ∧ render_csv quoted_name_report
    = "ResourceName,ResourceType,Status,Message" ++ newline
        ++ dq ++ "my" ++ dq ++ dq ++ "role" ++ dq ++ ","
        ++ dq ++ "IAM Role" ++ dq ++ ","
        ++ dq ++ "HEALTHY" ++ dq ++ ","
        ++ dq ++ "say " ++ dq ++ dq ++ "ok" ++ dq ++ dq ++ dq
  ∧ generate_csv_report quoted_name_report ≠ render_csv quoted_name_report.
Proof. split; [|split]; [reflexivity|reflexivity|discriminate]. Qed.

(** A message with quoted text comes out with the quotes doubled. *)
Example access_denied :
  csv_line "IAM Role"
    {| ResourceName := Some "test-role"; status := Some 500%Z;
       message := Some ("Error: " ++ dq ++ "AccessDenied" ++ dq ++ " occurred") |}
  = dq ++ "test-role" ++ dq ++ "," ++ dq ++ "IAM Role" ++ dq ++ ","
      ++ dq ++ "UNHEALTHY" ++ dq ++ ","
      ++ dq ++ "Error: " ++ dq ++ dq ++ "AccessDenied" ++ dq ++ dq ++ " occurred" ++ dq.
Proof. reflexivity. Qed.

End CsvProps.

(** ** The placeholder resolver *)

Module PlaceholderProps.
Import PyStr Placeholder PlaceholderSpec Samples.

(** *** The cleanup pass and its replacement template *)

(** A prefix without a backslash makes a well-formed template. *)
Lemma cleanup_compiles_plain (replacements : gmap string string) :
  (∀ p, cleanup_prefix replacements = Some p → contains "\" p = false) →
  cleanup_compiles replacements = true.
Proof.
  intros Hp. unfold cleanup_compiles.
  destruct (cleanup_prefix replacements) as [p|]; [|done].
  destruct (ReFacts.parse_template_plain (p ++ "-")) as [t ->]; [|done].
  rewrite PyStrFacts.contains_app_single, (Hp p eq_refl). reflexivity.
Qed.

Lemma clean_duplicate_prefixes_is_Some (text : string) (replacements : gmap string string) :
  cleanup_compiles replacements = true →
  is_Some (clean_duplicate_prefixes text replacements).
Proof.
  unfold cleanup_compiles, clean_duplicate_prefixes, cleanup_prefix.
  destruct (available _) as [p|]; [|by eexists].
  unfold Re.sub_template. destruct (Re.parse_template (p ++ "-")); [|done].
  intros _. cbn. apply ReFacts.sub_from_is_Some. by eexists.
Qed.

Lemma clean_duplicate_prefixes_None (text : string) (replacements : gmap string string) :
  clean_duplicate_prefixes text replacements = None →
  cleanup_compiles replacements = false.
Proof.
  intros Hnone. destruct (cleanup_compiles replacements) eqn:Hc; [|done].
  destruct (clean_duplicate_prefixes_is_Some text replacements Hc) as [r Hr].
  congruence.
Qed.

(** *** The resolver returns whenever the template is well formed *)

Lemma sub_placeholders_is_Some (replacements : gmap string string) (text : string) :
  is_Some (sub_placeholders replacements text).
Proof. apply ReFacts.sub_from_is_Some. by eexists. Qed.

Lemma replace_placeholders_in_string_is_Some (w : world) (text : string)
      (replacements : gmap string string) :
  cleanup_compiles replacements = true →
  is_Some (replace_placeholders_in_string w text replacements).
Proof.
  intros Hc. unfold replace_placeholders_in_string.
  destruct (sub_placeholders_is_Some replacements
              (fix_custom_resource_outputs w
                 (fix_multiorg_role_references text replacements) replacements))
    as [t ->].
  cbn. by apply clean_duplicate_prefixes_is_Some.
Qed.

Lemma replace_placeholders_in_string_None (w : world) (text : string)
      (replacements : gmap string string) :
  replace_placeholders_in_string w text replacements = None →
  cleanup_compiles replacements = false.
Proof.
  intros Hnone. destruct (cleanup_compiles replacements) eqn:Hc; [|done].
  destruct (replace_placeholders_in_string_is_Some w text replacements Hc) as [r Hr].
  congruence.
Qed.

Lemma resolve_conditional_options_is_Some (w : world) (option1 option2 : string)
      (replacements : gmap string string) :
  cleanup_compiles replacements = true →
  is_Some (resolve_conditional_options w option1 option2 replacements).
Proof.
  intros Hc. unfold resolve_conditional_options.
  destruct (replace_placeholders_in_string_is_Some w option1 replacements Hc) as [r1 ->].
  destruct (replace_placeholders_in_string_is_Some w option2 replacements Hc) as [r2 ->].
  cbn. repeat (match goal with |- context [if ?b then _ else _] => destruct b end);
    by eexists.
Qed.

Lemma resolve_conditional_placeholder_is_Some (w : world) (value : string)
      (replacements : gmap string string) :
  cleanup_compiles replacements = true →
  is_Some (resolve_conditional_placeholder w value replacements).
Proof.
  intros Hc. apply ReFacts.sub_from_is_Some. intros m. unfold replace_conditional_match.
  destruct (split "|" (Re.group1 m)) as [|o1 [|o2 [|? ?]]]; try by eexists.
  by apply resolve_conditional_options_is_Some.
Qed.

(** *** Structure of a resolved document *)

Lemma value_ind (P : value → Prop) :
  P VNull → (∀ b, P (VBool b)) → (∀ z, P (VInt z)) → (∀ bits, P (VFloat bits)) →
  (∀ s, P (VStr s)) →
  (∀ items, Forall P items → P (VList items)) →
  (∀ items, Forall (fun kv => P kv.2) items → P (VDict items)) →
  ∀ v, P v.
Proof.
  intros Hnull Hbool Hint Hfloat Hstr Hlist Hdict.
  fix IH 1. intros [ | b | z | bits | s | items | items ].
  - exact Hnull.
  - apply Hbool.
  - apply Hint.
  - apply Hfloat.
  - apply Hstr.
  - apply Hlist.
    induction items as [|x items IHitems]; constructor; [apply IH | exact IHitems].
  - apply Hdict.
    induction items as [|[k x] items IHitems]; constructor; [apply IH | exact IHitems].
Qed.

Lemma all2_Forall2 {A B} (f : A → B → bool) (l : list A) (k : list B) :
  Forall2 (fun x y => f x y = true) l k → all2 f l k = true.
Proof. induction 1 as [|x y l k Hxy _ IH]; [done|]. simpl. by rewrite Hxy, IH. Qed.

Lemma replace_placeholders_shape (w : world) (replacements : gmap string string)
      (data data' : value) :
  replace_placeholders w data replacements = Some data' →
  same_shape data data' = true.
Proof.
  revert data'. induction data as [ | b | z | bits | s | items IH | items IH ]
    using value_ind; intros data' Hrp; cbn [replace_placeholders] in Hrp.
  - by injection Hrp as <-.
  - injection Hrp as <-. simpl. by destruct b.
  - injection Hrp as <-. simpl. apply Z.eqb_refl.
  - injection Hrp as <-. simpl. apply Z.eqb_refl.
  - destruct (resolve_conditional_placeholder w s replacements) as [r|]; [|done].
    cbn in Hrp. destruct (replace_placeholders_in_string w r replacements); [|done].
    by injection Hrp as <-.
  - destruct (mapM _ items) as [items'|] eqn:Hm; [|done].
    injection Hrp as <-. cbn [same_shape]. apply all2_Forall2.
    apply mapM_Some_1 in Hm. revert IH.
    induction Hm as [|x y l k Hxy _ IHm]; intros IH; constructor.
    + apply Forall_cons in IH as [Hx _]. by apply Hx.
    + apply Forall_cons in IH as [_ Hl]. by apply IHm.
  - destruct (mapM _ items) as [items'|] eqn:Hm; [|done].
    injection Hrp as <-. cbn [same_shape]. apply all2_Forall2.
    apply mapM_Some_1 in Hm. revert IH.
    induction Hm as [|x y l k Hxy _ IHm]; intros IH; constructor.
    + apply Forall_cons in IH as [Hx _].
      destruct (replace_placeholders w x.2 replacements) as [v|] eqn:Hv; [|done].
      injection Hxy as <-. simpl. rewrite String.eqb_refl. by apply Hx.
    + apply Forall_cons in IH as [_ Hl]. by apply IHm.
Qed.

Lemma replace_placeholders_is_Some (w : world) (replacements : gmap string string)
      (data : value) :
  cleanup_compiles replacements = true →
  is_Some (replace_placeholders w data replacements).
Proof.
  intros Hc. induction data as [ | b | z | bits | s | items IH | items IH ]
    using value_ind; cbn [replace_placeholders]; try by eexists.
  - destruct (resolve_conditional_placeholder_is_Some w s replacements Hc) as [r ->].
    cbn. destruct (replace_placeholders_in_string_is_Some w r replacements Hc) as [t ->].
    by eexists.
  - apply fmap_is_Some, mapM_is_Some_2. exact IH.
  - apply fmap_is_Some, mapM_is_Some_2.
    eapply Forall_impl; [exact IH|]. intros kv [v Hv]. cbn. rewrite Hv. by eexists.
Qed.

(** C5. Whenever [replace_placeholders] returns, its result has the
    structure of the document it was given: the same keys in the same
    order, sequences of the same length and order, and the same numbers,
    booleans and nulls; only string leaves differ.  It returns for every
    document unless the replacement of the cleanup pass is an ill-formed
    template, in which case it raises. *)
Theorem structure_preservation (w : world) (data : value)
        (replacements : gmap string string) :
  match replace_placeholders w data replacements with
  | Some data' => same_shape data data' = true
  | None => cleanup_compiles replacements = false
  end.
Proof.
  destruct (replace_placeholders w data replacements) as [data'|] eqn:Hrp.
  - by eapply replace_placeholders_shape.
  - destruct (cleanup_compiles replacements) eqn:Hc; [|done].
    destruct (replace_placeholders_is_Some w replacements data Hc) as [d Hd].
    congruence.
Qed.

(** *** Conditional options *)

Lemma priority_rule (w : world) (option1 option2 : string)
      (replacements : gmap string string) :
  has_lambda_prefix option1 ≠ has_lambda_prefix option2 →
  is_Some (priority_prefix replacements) →
  resolve_conditional_options w option1 option2 replacements
  = replace_placeholders_in_string w
      (if has_lambda_prefix option1 then option1 else option2) replacements.
Proof.
  intros Hone Hset. unfold resolve_conditional_options.
  fold (has_lambda_prefix option1) (has_lambda_prefix option2)
       (priority_prefix replacements).
  rewrite (bool_decide_eq_true_2 _ Hset).
  destruct (has_lambda_prefix option1), (has_lambda_prefix option2); done.
Qed.

(** C3, as stated, fails in two ways.  The value that decides is the one
    of [LambdaPrefix] when it is not empty, whatever token the option
    holds: with [LambdaPrefix] holding its own name and [lambdaPrefix]
    holding multiorg, the option with [${lambdaPrefix}] is passed over
    although its token resolves to multiorg.  And the token is known in
    two spellings only: [${LAMBDAPREFIX}] gives no priority. *)
Lemma priority_counterexample :
  has_lambda_prefix "${CallCenterApiName}-Function" = false
  ∧ has_lambda_prefix "${lambdaPrefix}-Function" = true
  ∧ ctx_sentinel !! "lambdaPrefix" = Some "multiorg"
  ∧ replace_placeholders_in_string world0 "${lambdaPrefix}-Function" ctx_sentinel
    = Some "multiorg-Function"
  ∧ replace_placeholders world0
      (VStr "${CallCenterApiName}-Function|${lambdaPrefix}-Function") ctx_sentinel
    = Some (VStr "mycc-Function")
  ∧ ctx_upper !! "LAMBDAPREFIX" = Some "myorg"
  ∧ replace_placeholders_in_string world0 "${LAMBDAPREFIX}-Function" ctx_upper
    = Some "myorg-Function"
  ∧ replace_placeholders world0
      (VStr "${CallCenterApiName}-Function|${LAMBDAPREFIX}-Function") ctx_upper
    = Some (VStr "mycc-Function").
Proof. repeat split; vm_compute; reflexivity. Qed.

(** C3, amended. When exactly one of the two options holds the priority
    token, spelled [${LambdaPrefix}] or [${lambdaPrefix}], and the lambda
    prefix (the value of [LambdaPrefix], or that of [lambdaPrefix] when
    the former is absent or empty) is neither empty nor the name of the
    placeholder, conditional resolution is the resolution of that option.
    With CallCenterApiName = mycc and LambdaPrefix = myorg the template
    "${CallCenterApiName}-Function|${LambdaPrefix}-Function" resolves to
    "myorg-Function"; with LambdaPrefix absent or empty it resolves to
    "mycc-Function". *)
Theorem conditional_priority :
  (∀ (w : world) (option1 option2 : string) (replacements : gmap string string),
      has_lambda_prefix option1 ≠ has_lambda_prefix option2 →
      is_Some (priority_prefix replacements) →
      resolve_conditional_options w option1 option2 replacements
      = replace_placeholders_in_string w
          (if has_lambda_prefix option1 then option1 else option2) replacements)
  ∧ (∀ w : world,
        replace_placeholders w (VStr function_template) ctx_both
        = Some (VStr "myorg-Function"))
  ∧ (∀ w : world,
        replace_placeholders w (VStr function_template) ctx_absent
        = Some (VStr "mycc-Function"))
  ∧ (∀ w : world,
        replace_placeholders w (VStr function_template) ctx_empty
        = Some (VStr "mycc-Function")).
Proof.
  split; [exact priority_rule|].
  split; [|split]; intros w; vm_compute; reflexivity.
Qed.

(** C7, as stated, fails: the first rule returns the option that carries
    the priority token whatever its first character, here "-myorg-Fn",
    while the other option resolves to "mycc-Fn". *)
Lemma dangling_separator_counterexample :
  resolve_conditional_options world0 "${CallCenterApiName}-Fn" "-${LambdaPrefix}-Fn" ctx_both
  = Some "-myorg-Fn"
  ∧ startswith "-" "-myorg-Fn" = true
  ∧ replace_placeholders_in_string world0 "${CallCenterApiName}-Fn" ctx_both
    = Some "mycc-Fn"
  ∧ startswith "-" "mycc-Fn" = false.
Proof. repeat split; vm_compute; reflexivity. Qed.

(** C7, amended. When the first rule does not apply (no option carries
    the priority token, or the lambda prefix has no value), conditional
    resolution returns a string that starts with "-" only if the
    resolutions of both options start with "-". *)
Theorem no_dangling_separator (w : world) (option1 option2 : string)
        (replacements : gmap string string) (resolved : string) :
  priority_rule_fires option1 option2 replacements = false →
  resolve_conditional_options w option1 option2 replacements = Some resolved →
  startswith "-" resolved = true →
  ∃ option1_resolved option2_resolved,
    replace_placeholders_in_string w option1 replacements = Some option1_resolved
    ∧ replace_placeholders_in_string w option2 replacements = Some option2_resolved
    ∧ startswith "-" option1_resolved = true
    ∧ startswith "-" option2_resolved = true.
Proof.
  unfold priority_rule_fires, resolve_conditional_options.
  fold (has_lambda_prefix option1) (has_lambda_prefix option2)
       (priority_prefix replacements).
  intros Hfire Hres Hdash.
  assert (Hskip1 : has_lambda_prefix option1
                   && bool_decide (is_Some (priority_prefix replacements)) = false).
  { destruct (has_lambda_prefix option1); [exact Hfire | done]. }
  assert (Hskip2 : has_lambda_prefix option2
                   && bool_decide (is_Some (priority_prefix replacements)) = false).
  { destruct (has_lambda_prefix option2); [|done].
    by rewrite orb_true_r in Hfire. }
  rewrite Hskip1, Hskip2 in Hres. clear Hfire Hskip1 Hskip2.
  destruct (replace_placeholders_in_string w option1 replacements) as [r1|]; [|done].
  cbn in Hres.
  destruct (startswith "-" r1) eqn:Hd1.
  - rewrite andb_false_r in Hres.
    destruct (replace_placeholders_in_string w option2 replacements) as [r2|]; [|done].
    cbn in Hres. exists r1, r2. repeat split; try done.
    destruct (startswith "-" r2) eqn:Hd2; [done|].
    rewrite andb_true_r in Hres. cbn in Hres.
    destruct (Re.search Re.PLACEHOLDER_RE r2); cbn in Hres;
      injection Hres as <-; congruence.
  - rewrite andb_true_r in Hres.
    destruct (Re.search Re.PLACEHOLDER_RE r1); cbn in Hres;
      [|injection Hres as <-; congruence].
    destruct (replace_placeholders_in_string w option2 replacements) as [r2|]; [|done].
    cbn in Hres. destruct (startswith "-" r2) eqn:Hd2.
    + rewrite andb_false_r in Hres. cbn in Hres. injection Hres as <-. congruence.
    + rewrite andb_true_r in Hres.
      destruct (Re.search Re.PLACEHOLDER_RE r2); cbn in Hres.
      * destruct (has_lambda_prefix option1); [injection Hres as <-; congruence|].
        destruct (has_lambda_prefix option2); injection Hres as <-; congruence.
      * injection Hres as <-; congruence.
Qed.

(** *** Simple tokens *)

Lemma until_brace_app (name rest : string) :
  contains "}" name = false →
  Re.until_brace (name ++ "}" ++ rest) = Some (name, rest).
Proof.
  induction name as [|c name IH]; intros Hname; [done|].
  cbn [contains] in Hname. apply orb_false_iff in Hname as [Hc Hname].
  rewrite PyStrFacts.prefix_single, Ascii.eqb_sym in Hc.
  change (String c name ++ "}" ++ rest) with (String c (name ++ "}" ++ rest)).
  cbn [Re.until_brace]. rewrite Hc, (IH Hname). reflexivity.
Qed.

Lemma placeholder_match (name rest : string) :
  name ≠ "" → contains "}" name = false →
  Re.PLACEHOLDER_RE ("${" ++ name ++ "}" ++ rest)
  = Some {| Re.group0 := "${" ++ name ++ "}"; Re.group1 := name |}.
Proof.
  intros Hne Hname.
  change ("${" ++ name ++ "}" ++ rest)
    with (String "$" (String "{" (name ++ "}" ++ rest))).
  cbn [Re.PLACEHOLDER_RE]. rewrite (until_brace_app _ _ Hname).
  by destruct name.
Qed.

(** A token at the head of the text is replaced by the value of its
    name, and stays when its name has none. *)
Lemma sub_placeholders_token (replacements : gmap string string) (name rest : string) :
  name ≠ "" → contains "}" name = false →
  sub_placeholders replacements ("${" ++ name ++ "}" ++ rest)
  = append (default ("${" ++ name ++ "}") (replacements !! name))
      <$> sub_placeholders replacements rest.
Proof.
  intros Hne Hname. unfold sub_placeholders, Re.sub.
  pose proof (placeholder_match name rest Hne Hname) as Hm.
  assert (Hassoc : "${" ++ name ++ "}" ++ rest
                   = String "$" (("{" ++ name ++ "}") ++ rest)).
  { rewrite !PyStrFacts.append_assoc. reflexivity. }
  rewrite Hassoc in Hm |- *.
  rewrite ReFacts.sub_from_cons, Hm. cbn [Re.group0 Re.group1 mbind option_bind].
  rewrite ReFacts.sub_from_skip.
  - replace (String.length ("${" ++ name ++ "}") - 1)%nat
      with (String.length ("{" ++ name ++ "}")) by (simpl; lia).
    rewrite PyStrFacts.drop_append. by destruct (Re.sub_from _ _ rest 0).
  - rewrite !PyStrFacts.length_append. simpl. lia.
Qed.

(** A character at which no token starts is kept. *)
Lemma sub_placeholders_char (replacements : gmap string string) (c : ascii) (t : string) :
  Re.PLACEHOLDER_RE (String c t) = None →
  sub_placeholders replacements (String c t)
  = String c <$> sub_placeholders replacements t.
Proof. intros Hno. unfold sub_placeholders, Re.sub. by rewrite ReFacts.sub_from_cons, Hno. Qed.

(** Without a prefix the fix-up and cleanup passes do nothing. *)
Lemma replace_placeholders_in_string_unset (w : world) (text : string)
      (replacements : gmap string string) :
  cleanup_prefix replacements = None →
  replace_placeholders_in_string w text replacements
  = sub_placeholders replacements text.
Proof.
  unfold cleanup_prefix. intros Hunset.
  unfold replace_placeholders_in_string, fix_multiorg_role_references,
    fix_custom_resource_outputs, clean_duplicate_prefixes.
  rewrite Hunset. by destruct (sub_placeholders replacements text).
Qed.

(** C6, as stated, fails: with a lambda prefix set, the cleanup pass
    rewrites the substituted text.  The value of a present name does not
    reach the output as it is, and a token whose name is absent does not
    stay as it was. *)
Lemma passthrough_counterexample :
  sub_placeholders ctx_scv "${lambdaPrefix}-${FunctionName}" = Some "scv-scv-Fn"
  ∧ replace_placeholders_in_string world0 "${lambdaPrefix}-${FunctionName}" ctx_scv
    = Some "scv-Fn"
  ∧ ctx_scv !! "scv-scv-x" = None
  ∧ replace_placeholders_in_string world0 "${scv-scv-x}" ctx_scv = Some "${scv-x}".
Proof. repeat split; vm_compute; reflexivity. Qed.

(** The replacement of the cleanup pass is handed to [re] as a template
    although the pattern is escaped: a prefix with a backslash that does
    not start a valid escape makes every resolution raise. *)
Example cleanup_template_raises :
  replace_placeholders_in_string world0 "Hello" ctx_backslash = None.
Proof. vm_compute. reflexivity. Qed.

(** C6, amended. The resolver returns a string for every text whenever
    the replacement of the cleanup pass is a well-formed template, as it
    is when no lambda prefix is set.  When no lambda prefix is set the
    result is the text with its tokens substituted: a token [${Name}]
    whose name has a value is replaced by it, a token whose name has none
    stays as it is, and every other character is kept.  So
    "Hello ${name}" resolves to "Hello World" when name = World, and
    "Hello ${x}" resolves to itself in the empty context. *)
Theorem resolver_passthrough :
  (∀ (w : world) (text : string) (replacements : gmap string string),
      cleanup_compiles replacements = true →
      is_Some (replace_placeholders_in_string w text replacements))
  ∧ (∀ (w : world) (text : string) (replacements : gmap string string),
        cleanup_prefix replacements = None →
        replace_placeholders_in_string w text replacements
        = sub_placeholders replacements text)
  ∧ (∀ (replacements : gmap string string) (name rest : string),
        name ≠ "" → contains "}" name = false →
        sub_placeholders replacements ("${" ++ name ++ "}" ++ rest)
        = append (default ("${" ++ name ++ "}") (replacements !! name))
            <$> sub_placeholders replacements rest)
  ∧ (∀ (replacements : gmap string string) (c : ascii) (t : string),
        Re.PLACEHOLDER_RE (String c t) = None →
        sub_placeholders replacements (String c t)
        = String c <$> sub_placeholders replacements t)
  ∧ (∀ w : world,
        replace_placeholders w (VStr "Hello ${name}") (<["name" := "World"]> ∅)
        = Some (VStr "Hello World"))
  ∧ (∀ w : world,
        replace_placeholders w (VStr "Hello ${x}") ∅ = Some (VStr "Hello ${x}")).
Proof.
  split; [exact replace_placeholders_in_string_is_Some|].
  split; [exact replace_placeholders_in_string_unset|].
  split; [exact sub_placeholders_token|].
  split; [exact sub_placeholders_char|].
  split; intros w; vm_compute; reflexivity.
Qed.

(** *** Dependence on the outside world *)

Section SameDiscovery.
Variables (w1 w2 : world) (replacements : gmap string string).
Hypothesis Hsame : same_discovery w1 w2 replacements.

Lemma fix_custom_resource_outputs_same (text : string) :
  fix_custom_resource_outputs w1 text replacements
  = fix_custom_resource_outputs w2 text replacements.
Proof.
  unfold fix_custom_resource_outputs.
  destruct Hsame as [Hno|Heq].
  - unfold discovery_possible, cleanup_prefix in Hno.
    destruct (available _) as [p|]; [|done].
    rewrite bool_decide_eq_true_2 in Hno by by eexists.
    cbn [andb] in Hno.
    assert (Hw : wants_discovery text (replacements !! "ConnectInstanceId") = false).
    { unfold wants_discovery.
      destruct (truthy _), (negb _); try done; by rewrite ?andb_false_r. }
    by rewrite Hw.
  - destruct (available _) as [p|]; [|done]. by rewrite Heq.
Qed.

Lemma replace_placeholders_in_string_same (text : string) :
  replace_placeholders_in_string w1 text replacements
  = replace_placeholders_in_string w2 text replacements.
Proof.
  unfold replace_placeholders_in_string.
  by rewrite fix_custom_resource_outputs_same.
Qed.

Lemma resolve_conditional_options_same (option1 option2 : string) :
  resolve_conditional_options w1 option1 option2 replacements
  = resolve_conditional_options w2 option1 option2 replacements.
Proof.
  unfold resolve_conditional_options.
  by rewrite !replace_placeholders_in_string_same.
Qed.

Lemma resolve_conditional_placeholder_same (value : string) :
  resolve_conditional_placeholder w1 value replacements
  = resolve_conditional_placeholder w2 value replacements.
Proof.
  apply ReFacts.sub_from_ext. intros m. unfold replace_conditional_match.
  destruct (split "|" (Re.group1 m)) as [|o1 [|o2 [|? ?]]]; try done.
  apply resolve_conditional_options_same.
Qed.

Lemma replace_placeholders_same (data : value) :
  replace_placeholders w1 data replacements
  = replace_placeholders w2 data replacements.
Proof.
  induction data as [ | b | z | bits | s | items IH | items IH ]
    using value_ind; cbn [replace_placeholders]; try done.
  - rewrite resolve_conditional_placeholder_same.
    destruct (resolve_conditional_placeholder w2 s replacements); [|done].
    cbn. by rewrite replace_placeholders_in_string_same.
  - f_equal. by apply Forall_mapM_ext.
  - f_equal. apply Forall_mapM_ext.
    eapply Forall_impl; [exact IH|]. intros kv Hkv. cbn in *. by rewrite Hkv.
Qed.
End SameDiscovery.

(** C9, as stated, fails: with the same arguments the resolver gives the
    discovered stream in one world and the pattern-built one in another,
    and the aggregator stamps the report with the time of the call. *)
Lemma purity_counterexample :
  replace_placeholders world0 (VStr CTR_REF) ctx_discovery
  = Some (VStr "arn:aws:kinesis:us-west-2:123456789012:stream/scv-CTRStream")
  ∧ replace_placeholders world_found (VStr CTR_REF) ctx_discovery
    = Some (VStr "arn:aws:kinesis:us-west-2:123456789012:stream/ctr")
  ∧ Reporting.execution_metadata
      (Reporting.generate_enhanced_report world0 health_input0 [] "id" 0 [])
    ≠ Reporting.execution_metadata
        (Reporting.generate_enhanced_report world_found health_input0 [] "id" 0 []).
Proof.
  split; [vm_compute; reflexivity|]. split; [vm_compute; reflexivity|].
  cbn. intros [=].
Qed.

(** C9, amended. The resolver is a function of its arguments and of the
    answers of stream discovery: two calls with the same arguments give
    the same result when discovery answers alike, and always when the
    context lets no discovery be attempted (no lambda prefix, or no
    connect instance id).  The summary, the detailed results, the errors
    and the input parameters of the aggregator's report are functions of
    its arguments; the whole report is the same when the clock and the
    debug flag are. *)
Theorem determinism_up_to_world :
  (∀ (w1 w2 : world) (data : value) (replacements : gmap string string),
      same_discovery w1 w2 replacements →
      replace_placeholders w1 data replacements
      = replace_placeholders w2 data replacements)
  ∧ (∀ (w1 w2 : world) (health_input : HealthCheckInput)
       (full_report : list ResourceTypeReport) (execution_id : string)
       (execution_time_ms : Z) (errs : list string),
        let r1 := Reporting.generate_enhanced_report w1 health_input full_report
                    execution_id execution_time_ms errs in
        let r2 := Reporting.generate_enhanced_report w2 health_input full_report
                    execution_id execution_time_ms errs in
        Reporting.summary r1 = Reporting.summary r2
        ∧ Reporting.detailed_results r1 = Reporting.detailed_results r2
        ∧ Reporting.errors r1 = Reporting.errors r2
        ∧ Reporting.input_parameters r1 = Reporting.input_parameters r2
        ∧ (utc_now_isoformat w1 = utc_now_isoformat w2 →
           is_debug_enabled w1 = is_debug_enabled w2 → r1 = r2)).
Proof.
  split.
  - intros w1 w2 data replacements Hsame. by apply replace_placeholders_same.
  - intros w1 w2 health_input full_report execution_id execution_time_ms errs.
    cbn. repeat split; try done.
    intros Hnow Hdebug. unfold Reporting.generate_enhanced_report.
    by rewrite Hnow, Hdebug.
Qed.

(** *** The theorems at sample inputs *)

Lemma conditional_priority_witness :
  has_lambda_prefix "${CallCenterApiName}-Function"
    ≠ has_lambda_prefix "${LambdaPrefix}-Function"
  ∧ is_Some (priority_prefix ctx_both)
  ∧ resolve_conditional_options world0
      "${CallCenterApiName}-Function" "${LambdaPrefix}-Function" ctx_both
    = replace_placeholders_in_string world0 "${LambdaPrefix}-Function" ctx_both.
Proof.
  assert (H1 : has_lambda_prefix "${CallCenterApiName}-Function"
               ≠ has_lambda_prefix "${LambdaPrefix}-Function").
  { vm_compute. discriminate. }
  assert (H2 : is_Some (priority_prefix ctx_both)).
  { exists "myorg". vm_compute. reflexivity. }
  split; [exact H1|]. split; [exact H2|].
  exact (proj1 conditional_priority world0
           "${CallCenterApiName}-Function" "${LambdaPrefix}-Function" ctx_both H1 H2).
Defined.

Lemma no_dangling_separator_witness :
  priority_rule_fires "-${A}" "-${B}" ∅ = false
  ∧ resolve_conditional_options world0 "-${A}" "-${B}" ∅ = Some "-${A}"
  ∧ startswith "-" "-${A}" = true
  ∧ ∃ option1_resolved option2_resolved,
      replace_placeholders_in_string world0 "-${A}" ∅ = Some option1_resolved
      ∧ replace_placeholders_in_string world0 "-${B}" ∅ = Some option2_resolved
      ∧ startswith "-" option1_resolved = true
      ∧ startswith "-" option2_resolved = true.
Proof.
  assert (H1 : priority_rule_fires "-${A}" "-${B}" ∅ = false)
    by (vm_compute; reflexivity).
  assert (H2 : resolve_conditional_options world0 "-${A}" "-${B}" ∅ = Some "-${A}")
    by (vm_compute; reflexivity).
  assert (H3 : startswith "-" "-${A}" = true) by reflexivity.
  split; [exact H1|]. split; [exact H2|]. split; [exact H3|].
  exact (no_dangling_separator world0 "-${A}" "-${B}" ∅ "-${A}" H1 H2 H3).
Defined.

Lemma resolver_passthrough_witness :
  cleanup_compiles ctx_scv = true
  ∧ is_Some (replace_placeholders_in_string world0 "Hello ${FunctionName}" ctx_scv).
Proof.
  assert (H1 : cleanup_compiles ctx_scv = true) by (vm_compute; reflexivity).
  split; [exact H1|].
  exact (proj1 resolver_passthrough world0 "Hello ${FunctionName}" ctx_scv H1).
Defined.

Lemma determinism_up_to_world_witness :
  same_discovery world0 world_found ctx_both
  ∧ replace_placeholders world0 document ctx_both
    = replace_placeholders world_found document ctx_both.
Proof.
  assert (H1 : same_discovery world0 world_found ctx_both).
  { left. vm_compute. reflexivity. }
  split; [exact H1|].
  exact (proj1 determinism_up_to_world world0 world_found document ctx_both H1).
Defined.

(** A whole document, resolved. *)
Example document_resolved :
  replace_placeholders world0 document ctx_both
  = Some (VDict [ ("LambdaFunctions",
                   VList [ VDict [ ("name", VStr "myorg-Function");
                                   ("timeout", VInt 30);
                                   ("alias", VNull) ] ]);
                  ("enabled", VBool true) ]).
Proof. vm_compute. reflexivity. Qed.

(** A conditional inside a longer string, as in the alarm names. *)
Example conditional_within_string :
  replace_placeholders world0
    (VStr "SCV Lambda ${CallCenterApiName}-Function|${LambdaPrefix}-Function Errors")
    ctx_both
  = Some (VStr "SCV Lambda myorg-Function Errors").
Proof. vm_compute. reflexivity. Qed.

End PlaceholderProps.


(** * Further properties of the code *)

(** ** Conditional tokens and options *)

Module ConditionalProps.
Import PyStr PyChars Placeholder PlaceholderSpec Samples.

Lemma take_run_spec (s r rest : string) :
  Re.take_run s = (r, rest) →
  s = r ++ rest ∧ all_chars Re.is_option_char r = true.
Proof.
  revert r rest. induction s as [|c t IH]; intros r rest Hrun; cbn [Re.take_run] in Hrun.
  - by injection Hrun as <- <-.
  - destruct (Re.is_option_char c) eqn:Hc.
    + destruct (Re.take_run t) as [r' rest'] eqn:Ht. injection Hrun as <- <-.
      destruct (IH r' rest' eq_refl) as [-> Hall]. split; [reflexivity|].
      cbn [all_chars]. by rewrite Hc, Hall.
    + by injection Hrun as <- <-.
Qed.

Lemma split_no_separator (sep : ascii) (s : string) :
  all_chars (fun c => negb (Ascii.eqb c sep)) s = true → split sep s = [s].
Proof.
  induction s as [|c t IH]; intros Hs; [reflexivity|].
  cbn [all_chars] in Hs. apply andb_true_iff in Hs as [Hc Ht].
  cbn [split]. apply negb_true_iff in Hc. by rewrite Hc, (IH Ht).
Qed.

Lemma split_at_separator (sep : ascii) (a b : string) :
  all_chars (fun c => negb (Ascii.eqb c sep)) a = true →
  split sep (a ++ String sep b) = a :: split sep b.
Proof.
  induction a as [|c a IH]; intros Ha.
  - change ("" ++ String sep b) with (String sep b).
    cbn [split]. by rewrite Ascii.eqb_refl.
  - cbn [all_chars] in Ha. apply andb_true_iff in Ha as [Hc Ha].
    change (String c a ++ String sep b) with (String c (a ++ String sep b)).
    cbn [split]. apply negb_true_iff in Hc. by rewrite Hc, (IH Ha).
Qed.

Lemma option_chars_no_bar (s : string) :
  all_chars Re.is_option_char s = true →
  all_chars (fun c => negb (Ascii.eqb c "|")) s = true.
Proof.
  induction s as [|c t IH]; [done|]. cbn [all_chars].
  intros [Hc Ht]%andb_true_iff. rewrite (IH Ht), andb_true_r.
  unfold Re.is_option_char in Hc. by apply andb_true_iff in Hc as [-> _].
Qed.

Lemma prefix_app (x y : string) : String.prefix x (x ++ y) = true.
Proof.
  induction x as [|e x IH]; [by destruct y|].
  change (String e x ++ y) with (String e (x ++ y)). cbn [String.prefix].
  by destruct (ascii_dec e e).
Qed.

(** What a match of the conditional pattern looks like. *)
Lemma conditional_match_inv (s : string) (m : Re.rmatch) :
  Re.CONDITIONAL_RE s = Some m →
  ∃ a b : string,
    a ≠ "" ∧ b ≠ ""
    ∧ all_chars Re.is_option_char a = true
    ∧ all_chars Re.is_option_char b = true
    ∧ Re.group1 m = a ++ String "|" b
    ∧ Re.group0 m = Re.group1 m
    ∧ String.prefix (Re.group0 m) s = true.
Proof.
  unfold Re.CONDITIONAL_RE. intros Hm.
  destruct (Re.take_run s) as [a rest] eqn:Ha.
  destruct a as [|c a]; [done|]. destruct rest as [|bar t]; [done|].
  destruct (Ascii.eqb_spec bar "|") as [->|Hbar]; cycle 1.
  { exfalso. destruct bar as [[] [] [] [] [] [] [] []]; try discriminate Hm.
    by apply Hbar. }
  destruct (Re.take_run t) as [b rest'] eqn:Hb.
  destruct b as [|d b]; [done|]. injection Hm as <-. cbn [Re.group0 Re.group1].
  apply take_run_spec in Ha as [-> Hall_a]. apply take_run_spec in Hb as [-> Hall_b].
  exists (String c a), (String d b). repeat split; try done.
  replace (String c a ++ String "|" (String d b ++ rest'))
    with ((String c a ++ String "|" (String d b)) ++ rest')
    by (rewrite PyStrFacts.append_assoc; reflexivity).
  apply prefix_app.
Qed.

(** X1. A match of the conditional pattern always splits at its bar into
    exactly two options, neither of them empty: the branch of
    [replace_conditional_match] for another number of parts is never
    taken, and every match is resolved by [resolve_conditional_options]. *)
Theorem conditional_match_two_options (w : world) (replacements : gmap string string)
        (s : string) (m : Re.rmatch) :
  Re.CONDITIONAL_RE s = Some m →
  ∃ option1 option2 : string,
    option1 ≠ "" ∧ option2 ≠ ""
    ∧ split "|" (Re.group1 m) = [option1; option2]
    ∧ replace_conditional_match w replacements m
      = resolve_conditional_options w option1 option2 replacements.
Proof.
  intros Hm. destruct (conditional_match_inv s m Hm)
    as (a & b & Ha & Hb & Hall_a & Hall_b & Hg & _).
  exists a, b. split; [done|]. split; [done|].
  assert (Hsplit : split "|" (Re.group1 m) = [a; b]).
  { rewrite Hg, split_at_separator by by apply option_chars_no_bar.
    by rewrite split_no_separator by by apply option_chars_no_bar. }
  split; [done|]. unfold replace_conditional_match. by rewrite Hsplit.
Qed.

Lemma conditional_match_two_options_witness :
  Re.CONDITIONAL_RE "a|b c"
  = Some {| Re.group0 := "a|b"; Re.group1 := "a|b" |}
  ∧ ∃ option1 option2 : string,
      option1 ≠ "" ∧ option2 ≠ ""
      ∧ split "|" "a|b" = [option1; option2]
      ∧ replace_conditional_match world0 ctx_both
          {| Re.group0 := "a|b"; Re.group1 := "a|b" |}
        = resolve_conditional_options world0 option1 option2 ctx_both.
Proof.
  split; [reflexivity|].
  exact (conditional_match_two_options world0 ctx_both "a|b c"
           {| Re.group0 := "a|b"; Re.group1 := "a|b" |} eq_refl).
Defined.

(** X2. Conditional resolution returns the resolution of one of its two
    options, whichever rule decides. *)
Theorem conditional_resolution_is_an_option (w : world) (option1 option2 : string)
        (replacements : gmap string string) (resolved : string) :
  resolve_conditional_options w option1 option2 replacements = Some resolved →
  replace_placeholders_in_string w option1 replacements = Some resolved
  ∨ replace_placeholders_in_string w option2 replacements = Some resolved.
Proof.
  unfold resolve_conditional_options. intros Hres.
  repeat match type of Hres with
         | (if ?b then _ else _) = _ => destruct b
         | (match ?o with Some _ => _ | None => _ end) = _ =>
             destruct o eqn:?; cbn in Hres
         | (?o ≫= _) = _ => destruct o eqn:?; cbn in Hres
         end; try discriminate; try (injection Hres as <-); auto.
Qed.

Lemma conditional_resolution_is_an_option_witness :
  resolve_conditional_options world0
    "${CallCenterApiName}-Function" "${LambdaPrefix}-Function" ctx_absent
  = Some "mycc-Function"
  ∧ (replace_placeholders_in_string world0 "${CallCenterApiName}-Function" ctx_absent
     = Some "mycc-Function"
     ∨ replace_placeholders_in_string world0 "${LambdaPrefix}-Function" ctx_absent
       = Some "mycc-Function").
Proof.
  assert (H : resolve_conditional_options world0
                "${CallCenterApiName}-Function" "${LambdaPrefix}-Function" ctx_absent
              = Some "mycc-Function") by (vm_compute; reflexivity).
  split; [exact H|].
  exact (conditional_resolution_is_an_option world0
           "${CallCenterApiName}-Function" "${LambdaPrefix}-Function" ctx_absent
           "mycc-Function" H).
Defined.

End ConditionalProps.

(** ** From the run to the report *)

Module PipelineProps.
Import PyStr Orchestrator OrchestratorSpec Reporting ReportingSpec CsvSpec Samples.

Lemma healthy_iff_200 (hc : HealthCheck) :
  in_bucket Healthy hc ↔ status hc = Some 200%Z.
Proof.
  unfold in_bucket, classify, status_of. destruct (status hc) as [st|]; simpl.
  - repeat case_decide; split; intros ?; try done; try congruence.
  - split; intros ?; [|done]. repeat case_decide; done.
Qed.

Lemma not_200_count (checks : list HealthCheck) :
  length (filter (fun hc => status hc ≠ Some 200%Z) checks)
  = (count Unhealthy checks + count Warning checks)%nat.
Proof.
  induction checks as [|hc checks IH]; [done|].
  rewrite filter_cons, !ReportingProps.count_cons.
  pose proof (healthy_iff_200 hc) as Hh.
  repeat case_decide; unfold in_bucket in *; simpl; rewrite ?IH;
    destruct (classify (status_of hc)); try congruence; try lia;
    exfalso; destruct Hh as [Hh1 Hh2]; first [discriminate Hh2; assumption | tauto].
Qed.

Lemma errors_of_length (task : string * outcome) :
  length (errors_of task)
  = (count Unhealthy (default [] (DetailedHealthCheck (entry_of task)))
     + count Warning (default [] (DetailedHealthCheck (entry_of task))))%nat.
Proof.
  unfold errors_of, entry_of. destruct (task.2) as [result|e].
  - by rewrite length_map, not_200_count.
  - reflexivity.
Qed.

Lemma all_checks_entries (completed : list (string * outcome)) :
  all_checks (map entry_of completed)
  = flat_map (fun task => default [] (DetailedHealthCheck (entry_of task))) completed.
Proof.
  unfold all_checks. induction completed as [|task completed IH]; [done|].
  simpl. by rewrite IH.
Qed.

Lemma errors_length (completed : list (string * outcome)) :
  length (flat_map errors_of completed)
  = (count Unhealthy (all_checks (map entry_of completed))
     + count Warning (all_checks (map entry_of completed)))%nat.
Proof.
  rewrite all_checks_entries.
  induction completed as [|task completed IH]; [done|].
  simpl. rewrite length_app, !ReportingProps.count_app, IH, errors_of_length. lia.
Qed.

(** X3. The report of a run on a fresh validator counts as many errors as
    it has unhealthy and warning resources; its overall status is
    "HEALTHY" exactly when the error list is empty, and "UNHEALTHY" as
    soon as one task raised. *)
Theorem error_count_matches_summary (w : world) (self : MultiThreadedValidator)
        (completed : list (string * outcome)) (execution_id : string)
        (execution_time_ms : Z) :
  (0 < max_threads (health_input self))%Z →
  Orchestrator.errors self = [] →
  ∃ full_report self' s,
    validate_all_resources_parallel self completed = Some (full_report, self')
    ∧ summary (generate_enhanced_report w (health_input self) full_report
                 execution_id execution_time_ms (Orchestrator.errors self')) = Some s
    ∧ error_count s = (unhealthy s + warnings s)%nat
    ∧ (overall_status s = "HEALTHY" ↔ Orchestrator.errors self' = [])
    ∧ ((∃ task_name e, (task_name, Raised e) ∈ completed) →
       overall_status s = "UNHEALTHY").
Proof.
  intros Hpos Hfresh. eexists _, _, _.
  split; [by apply OrchestratorProps.run_spec|].
  split; [apply ReportingProps.summary_spec|].
  simpl. rewrite Hfresh. simpl.
  pose proof (errors_length completed) as Hlen.
  set (checks := all_checks (map entry_of completed)) in *.
  set (errs := flat_map errors_of completed) in *.
  split; [exact Hlen|]. split.
  - unfold overall. split.
    + intros Hov. repeat case_decide; try discriminate.
      destruct errs; [done|]. exfalso. naive_solver.
    + intros ->. simpl in Hlen.
      assert (HU : ¬ Exists (in_bucket Unhealthy) checks)
        by (rewrite <- ReportingProps.count_pos; lia).
      assert (HW : ¬ Exists (in_bucket Warning) checks)
        by (rewrite <- ReportingProps.count_pos; lia).
      rewrite decide_False by done. rewrite decide_False; [done|]. tauto.
  - intros (task_name & e & Hin). unfold overall. rewrite decide_True; [done|].
    apply Exists_exists.
    exists {| ResourceName := Some task_name; status := Some 500%Z;
              message := Some ("Failed to validate " ++ task_name ++ ": " ++ e) |}.
    split; [|reflexivity].
    unfold checks. rewrite all_checks_entries.
    apply list_elem_of_In, in_flat_map. exists (task_name, Raised e).
    split; [by apply list_elem_of_In|]. simpl. by left.
Qed.

Lemma error_count_matches_summary_witness :
  (0 < max_threads (health_input validator0))%Z
  ∧ Orchestrator.errors validator0 = []
  ∧ ∃ full_report self' s,
      validate_all_resources_parallel validator0 tasks0 = Some (full_report, self')
      ∧ summary (generate_enhanced_report world0 (health_input validator0) full_report
                   "exec-1" 0 (Orchestrator.errors self')) = Some s
      ∧ error_count s = (unhealthy s + warnings s)%nat
      ∧ (overall_status s = "HEALTHY" ↔ Orchestrator.errors self' = [])
      ∧ ((∃ task_name e, (task_name, Raised e) ∈ tasks0) →
         overall_status s = "UNHEALTHY").
Proof.
  split; [reflexivity|]. split; [reflexivity|].
  exact (error_count_matches_summary world0 validator0 tasks0 "exec-1" 0 eq_refl eq_refl).
Defined.

(** X4. A validator that is run again keeps the errors of its earlier
    runs: the error list after a run is the list before it followed by
    the entries of this run, while the report list holds this run only. *)
Theorem errors_accumulate_across_runs (self : MultiThreadedValidator)
        (first second : list (string * outcome)) :
  (0 < max_threads (health_input self))%Z →
  ∃ report1 self1 report2 self2,
    validate_all_resources_parallel self first = Some (report1, self1)
    ∧ validate_all_resources_parallel self1 second = Some (report2, self2)
    ∧ Orchestrator.errors self2
      = (Orchestrator.errors self ++ flat_map errors_of first ++ flat_map errors_of second)%list
    ∧ report2 = map entry_of second.
Proof.
  intros Hpos. eexists _, _, _, _.
  split; [by apply OrchestratorProps.run_spec|].
  split; [by apply OrchestratorProps.run_spec|].
  simpl. by rewrite <- app_assoc.
Qed.

Lemma errors_accumulate_across_runs_witness :
  (0 < max_threads (health_input validator0))%Z
  ∧ ∃ report1 self1 report2 self2,
      validate_all_resources_parallel validator0 tasks_x = Some (report1, self1)
      ∧ validate_all_resources_parallel self1 tasks_x = Some (report2, self2)
      ∧ Orchestrator.errors self2
        = (Orchestrator.errors validator0 ++ flat_map errors_of tasks_x
             ++ flat_map errors_of tasks_x)%list
      ∧ report2 = map entry_of tasks_x.
Proof.
  split; [reflexivity|].
  exact (errors_accumulate_across_runs validator0 tasks_x tasks_x eq_refl).
Defined.

Lemma rows_length (f : option string → HealthCheck → string)
      (full_report : list ResourceTypeReport) :
  length (flat_map (fun r => map (f (ResourceType r)) (default [] (DetailedHealthCheck r)))
                   full_report)
  = length (all_checks full_report).
Proof.
  unfold all_checks. induction full_report as [|r full_report IH]; [done|].
  simpl. by rewrite !length_app, length_map, IH.
Qed.

(** X5. The CSV rendering of an enhanced report is the header followed by
    as many rows as the summary counts resources. *)
Theorem csv_rows_match_total (w : world) (health_input : HealthCheckInput)
        (full_report : list ResourceTypeReport) (execution_id : string)
        (execution_time_ms : Z) (errs : list string) :
  let report := generate_enhanced_report w health_input full_report
                  execution_id execution_time_ms errs in
  ∃ s, summary report = Some s
       ∧ generate_csv_report report
         = join newline ("ResourceName,ResourceType,Status,Message"
                           :: rows_of written_row report)
       ∧ length (rows_of written_row report) = total_resources s.
Proof.
  intros report. eexists. split; [apply ReportingProps.summary_spec|].
  split; [apply CsvProps.generate_csv_report_written|].
  simpl. unfold rows_of. simpl. apply rows_length.
Qed.

(** X6. The CSV calls a resource HEALTHY exactly when the summary counts
    it as healthy: a resource counted as a warning, and one without a
    status, are UNHEALTHY in the CSV. *)
Theorem csv_status_is_binary (resource_type : string) (hc : HealthCheck) :
  csv_line resource_type hc
  = quoted (default "Unknown" (ResourceName hc)) ++ ","
      ++ quoted resource_type ++ ","
      ++ quoted (if decide (classify (status_of hc) = Healthy)
                 then "HEALTHY" else "UNHEALTHY") ++ ","
      ++ quoted (replace dq (dq ++ dq) (default "" (message hc))).
Proof.
  unfold csv_line. do 4 f_equal.
  pose proof (healthy_iff_200 hc) as Hh. unfold in_bucket in Hh.
  case_bool_decide; case_decide; try done; exfalso; tauto.
Qed.

End PipelineProps.

(** ** Combined check results *)

Module AwsHelpersProps.
Import PyStr AwsHelpers Orchestrator ReportingSpec.

Lemma failures_nil (results : list (bool * string)) :
  map snd (List.filter (fun r => negb r.1) results) = []
  ↔ Forall (fun r => r.1 = true) results.
Proof.
  induction results as [|[ok msg] results IH]; simpl.
  - split; [constructor | done].
  - destruct ok; simpl.
    + rewrite IH. split; [by constructor | by inversion 1].
    + split; [done | by inversion 1].
Qed.

(** X7. The item [combine_results] builds has status 200 when every check
    succeeded and 500 otherwise, so the summary counts it as healthy or
    unhealthy and never as a warning; the orchestrator records an error
    for it exactly when a check failed, made of the resource name and the
    failure messages joined by "; " in their order.  For the single check
    of [validate_kinesis] the item is healthy exactly when the stream is
    among the listed ones. *)
Theorem combine_results_item (resource_name : string) (results : list (bool * string))
        (errs : list string) (all_streams : gset string) :
  let hc := combine_results resource_name results in
  let failures := map snd (List.filter (fun r => negb r.1) results) in
  ResourceName hc = Some resource_name
  ∧ (status hc = Some 200%Z ↔ Forall (fun r => r.1 = true) results)
  ∧ (status hc ≠ Some 200%Z → status hc = Some 500%Z)
  ∧ classify (status_of hc) ≠ Warning
  ∧ track_errors errs [hc]
    = (if decide (Forall (fun r => r.1 = true) results) then errs
       else (errs ++ [(resource_name ++ ": " ++ join "; " failures)%string])%list)
  ∧ (status (combine_results resource_name
               [kinesis_stream_exists resource_name all_streams]) = Some 200%Z
     ↔ resource_name ∈ all_streams).
Proof.
  intros hc failures. subst hc. unfold combine_results. fold failures.
  pose proof (failures_nil results) as Hnil. fold failures in Hnil.
  split; [by destruct failures|].
  split.
  { destruct failures; simpl; [tauto|]. split; [done|].
    intros Hall. by apply Hnil in Hall. }
  split; [by destruct failures|].
  split; [by destruct failures|].
  split.
  { destruct failures as [|f fs] eqn:Hf; simpl.
    - by rewrite decide_True by by apply Hnil.
    - rewrite decide_False; [done|]. intros Hall. by apply Hnil in Hall. }
  unfold kinesis_stream_exists. case_bool_decide; simpl; split; done.
Qed.

End AwsHelpersProps.

(** ** Connect instance ARNs *)

Module ArnProps.
Import PyStr PyChars Arn ExtraSpec ExtraSamples.

Lemma strip_prefix_app (p s : string) : strip_prefix p (p ++ s) = Some s.
Proof.
  induction p as [|c p IH]; [reflexivity|].
  change (String c p ++ s) with (String c (p ++ s)).
  cbn [strip_prefix]. by rewrite Ascii.eqb_refl.
Qed.

Lemma strip_prefix_inv (p s r : string) : strip_prefix p s = Some r → s = p ++ r.
Proof.
  revert s. induction p as [|c p IH]; intros s Hs; cbn [strip_prefix] in Hs.
  - by injection Hs as ->.
  - destruct s as [|d s]; [done|].
    destruct (Ascii.eqb_spec c d) as [->|]; [|done].
    change (String d p ++ r) with (String d (p ++ r)). f_equal. by apply IH.
Qed.

Lemma until_colon_app (a r : string) :
  colon_free a = true → until_colon (a ++ String ":" r) = Some (a, r).
Proof.
  unfold colon_free. induction a as [|c a IH]; intros Ha.
  - reflexivity.
  - cbn [all_chars] in Ha. apply andb_true_iff in Ha as [Hc Ha].
    change (String c a ++ String ":" r) with (String c (a ++ String ":" r)).
    cbn [until_colon]. apply negb_true_iff in Hc. by rewrite Hc, (IH Ha).
Qed.

Lemma until_colon_inv (s a r : string) :
  until_colon s = Some (a, r) → s = a ++ String ":" r ∧ colon_free a = true.
Proof.
  unfold colon_free. revert a r.
  induction s as [|c s IH]; intros a r Hs; cbn [until_colon] in Hs; [done|].
  destruct (Ascii.eqb c ":") eqn:Hc.
  - injection Hs as <- <-. apply Ascii.eqb_eq in Hc as ->. by split.
  - destruct (until_colon s) as [[a' r']|]; [|done]. cbn in Hs.
    injection Hs as <- <-. destruct (IH a' r' eq_refl) as [-> Ha].
    split; [reflexivity|]. cbn [all_chars]. by rewrite Hc, Ha.
Qed.

Lemma line_end_inv (s l : string) :
  line_end s = Some l →
  one_line l = true ∧ (s = l ∨ s = l ++ String LF EmptyString).
Proof.
  unfold one_line. revert l.
  induction s as [|c s IH]; intros l Hs; cbn [line_end] in Hs.
  - injection Hs as <-. by split; [|left].
  - destruct (Ascii.eqb c LF) eqn:Hc.
    + destruct s; [|done]. injection Hs as <-.
      apply Ascii.eqb_eq in Hc as ->. by split; [|right].
    + destruct (line_end s) as [l'|]; [|done]. cbn in Hs. injection Hs as <-.
      destruct (IH l' eq_refl) as [Hl Hs]. split.
      * cbn [all_chars]. by rewrite Hc, Hl.
      * destruct Hs as [->| ->]; [by left | by right].
Qed.

Lemma line_end_line (l : string) : one_line l = true → line_end l = Some l.
Proof.
  unfold one_line. induction l as [|c l IH]; intros Hl; [reflexivity|].
  cbn [all_chars] in Hl. apply andb_true_iff in Hl as [Hc Hl].
  cbn [line_end]. apply negb_true_iff in Hc. by rewrite Hc, (IH Hl).
Qed.

Lemma hex_run_inv (n : nat) (s r : string) :
  hex_run n s = Some r →
  ∃ h, s = h ++ r ∧ all_chars is_hex h = true ∧ String.length h = n.
Proof.
  revert s. induction n as [|n IH]; intros s Hs; cbn [hex_run] in Hs.
  - injection Hs as ->. by exists "".
  - destruct s as [|c s]; [done|]. destruct (is_hex c) eqn:Hc; [|done].
    destruct (IH s Hs) as (h & -> & Hh & Hlen). exists (String c h).
    split; [reflexivity|]. split; [|by rewrite <- Hlen].
    cbn [all_chars]. by rewrite Hc, Hh.
Qed.

Lemma all_chars_app (p : ascii → bool) (s t : string) :
  all_chars p (s ++ t) = all_chars p s && all_chars p t.
Proof.
  induction s as [|c s IH]; [by destruct t|].
  change (String c s ++ t) with (String c (s ++ t)).
  cbn [all_chars]. by rewrite IH, andb_assoc.
Qed.

Lemma all_chars_impl (p q : ascii → bool) (s : string) :
  (∀ c, p c = true → q c = true) → all_chars p s = true → all_chars q s = true.
Proof.
  intros Hpq. induction s as [|c s IH]; [done|]. cbn [all_chars].
  intros [Hc Hs]%andb_true_iff. by rewrite (Hpq c Hc), (IH Hs).
Qed.

Lemma is_hex_cases (c : ascii) :
  is_hex c = true →
  negb (Ascii.eqb c ":") = true ∧ negb (Ascii.eqb c LF) = true
  ∧ IdUtils.id_char c = true.
Proof.
  destruct c as [[] [] [] [] [] [] [] []]; vm_compute; intros H;
    try discriminate H; done.
Qed.

Lemma uuid36_rest (s : string) :
  uuid36 s = match uuid_rest s with Some r => String.eqb r "" | None => false end.
Proof. reflexivity. Qed.

Lemma match_uuid_rest (s : string) :
  match_uuid s = match uuid_rest s with
                 | Some r => String.eqb r "" || String.eqb r (String LF EmptyString)
                 | None => false
                 end.
Proof. reflexivity. Qed.

Lemma uuid_rest_inv (s r : string) :
  uuid_rest s = Some r →
  ∃ u, s = u ++ r ∧ hex_or_hyphen u = true ∧ String.length u = 36%nat.
Proof.
  unfold uuid_rest. intros H.
  apply bind_Some in H as (r1 & H1 & H). apply bind_Some in H as (r2 & H2 & H).
  apply bind_Some in H as (r3 & H3 & H). apply bind_Some in H as (r4 & H4 & H).
  apply bind_Some in H as (r5 & H5 & H). apply bind_Some in H as (r6 & H6 & H).
  apply bind_Some in H as (r7 & H7 & H). apply bind_Some in H as (r8 & H8 & H9).
  apply hex_run_inv in H1 as (h1 & -> & Hh1 & L1), H3 as (h3 & -> & Hh3 & L3),
    H5 as (h5 & -> & Hh5 & L5), H7 as (h7 & -> & Hh7 & L7),
    H9 as (h9 & -> & Hh9 & L9).
  apply strip_prefix_inv in H2 as ->, H4 as ->, H6 as ->, H8 as ->.
  assert (Hhex : ∀ h, all_chars is_hex h = true
                      → all_chars (fun c => is_hex c || Ascii.eqb c "-") h = true).
  { intros h. apply all_chars_impl. intros c ->. reflexivity. }
  exists (h1 ++ "-" ++ h3 ++ "-" ++ h5 ++ "-" ++ h7 ++ "-" ++ h9).
  split; [|split].
  - rewrite !PyStrFacts.append_assoc. reflexivity.
  - unfold hex_or_hyphen. rewrite !all_chars_app, (Hhex h1), (Hhex h3), (Hhex h5), (Hhex h7), (Hhex h9)
      by done. reflexivity.
  - rewrite !PyStrFacts.length_append, L1, L3, L5, L7, L9. reflexivity.
Qed.

Lemma append_empty_r (s : string) : s ++ "" = s.
Proof.
  induction s as [|c s IH]; [reflexivity|].
  change (String c s ++ "") with (String c (s ++ "")). by rewrite IH.
Qed.

(** A UUID is made of 36 hexadecimal digits and hyphens. *)
Lemma uuid36_chars (s : string) :
  uuid36 s = true → hex_or_hyphen s = true ∧ String.length s = 36%nat.
Proof.
  rewrite uuid36_rest. destruct (uuid_rest s) as [r|] eqn:Hr; [|done].
  intros ->%String.eqb_eq. apply uuid_rest_inv in Hr as (u & -> & Hu & Hl).
  by rewrite append_empty_r.
Qed.

Lemma hex_or_hyphen_field (s : string) :
  hex_or_hyphen s = true → colon_free s = true ∧ one_line s = true.
Proof.
  intros Hc. split.
  - revert Hc. apply all_chars_impl. intros c [Hh|He]%orb_true_iff.
    + by apply is_hex_cases.
    + by apply Ascii.eqb_eq in He as ->.
  - revert Hc. apply all_chars_impl. intros c [Hh|He]%orb_true_iff.
    + by apply is_hex_cases.
    + by apply Ascii.eqb_eq in He as ->.
Qed.

Lemma uuid36_match (s : string) : uuid36 s = true → match_uuid s = true.
Proof.
  rewrite uuid36_rest, match_uuid_rest.
  destruct (uuid_rest s) as [r|]; [|done]. by intros ->.
Qed.

Lemma match_uuid_one_line (s : string) :
  one_line s = true → match_uuid s = true → uuid36 s = true.
Proof.
  rewrite uuid36_rest, match_uuid_rest. intros Hline Hm.
  destruct (uuid_rest s) as [r|] eqn:Hr; [|done].
  apply orb_true_iff in Hm as [Hm|Hm]; [done|].
  apply String.eqb_eq in Hm as ->. exfalso.
  apply uuid_rest_inv in Hr as (u & -> & _ & _).
  unfold one_line in Hline. rewrite all_chars_app in Hline.
  apply andb_true_iff in Hline as [_ Hline]. discriminate Hline.
Qed.


Lemma dot_plus_end_inv (s l : string) :
  dot_plus_end s = Some l →
  l ≠ "" ∧ one_line l = true ∧ (s = l ∨ s = l ++ String LF EmptyString).
Proof.
  unfold dot_plus_end. destruct (line_end s) as [[|c l']|] eqn:Hs; [done| |done].
  intros [= <-]. by apply line_end_inv in Hs as [? ?].
Qed.

Lemma dot_plus_end_line (l : string) :
  l ≠ "" → one_line l = true → dot_plus_end l = Some l.
Proof.
  intros Hne Hl. unfold dot_plus_end. rewrite (line_end_line l Hl).
  by destruct l.
Qed.

Lemma arn_field_inv (s : string) :
  arn_field s = true ↔ s ≠ "" ∧ colon_free s = true.
Proof.
  unfold arn_field. rewrite andb_true_iff, negb_true_iff, String.eqb_neq. done.
Qed.

Lemma match_arn_pattern_inv (arn p r a i : string) :
  match_arn_pattern arn = Some (p, r, a, i) →
  arn_field p = true ∧ arn_field r = true ∧ arn_field a = true
  ∧ i ≠ "" ∧ one_line i = true
  ∧ (arn = InputParser.connect_arn p r a i
     ∨ arn = InputParser.connect_arn p r a i ++ String LF EmptyString).
Proof.
  unfold match_arn_pattern. intros H.
  apply bind_Some in H as (r0 & H0 & H).
  apply bind_Some in H as ([p' r1] & H1 & H).
  destruct (String.eqb_spec p' "") as [|Hp]; [done|].
  apply bind_Some in H as (r2 & H2 & H).
  apply bind_Some in H as ([r' r3] & H3 & H).
  destruct (String.eqb_spec r' "") as [|Hr]; [done|].
  apply bind_Some in H as ([a' r4] & H4 & H).
  destruct (String.eqb_spec a' "") as [|Ha]; [done|].
  apply bind_Some in H as (r5 & H5 & H).
  apply bind_Some in H as (i' & H6 & H).
  injection H as <- <- <- <-.
  apply strip_prefix_inv in H0 as ->, H2 as ->, H5 as ->.
  apply until_colon_inv in H1 as [-> Hcp], H3 as [-> Hcr], H4 as [-> Hca].
  apply dot_plus_end_inv in H6 as (Hi & Hline & Hs).
  rewrite !arn_field_inv. repeat split; try done.
  unfold InputParser.connect_arn.
  destruct Hs as [->| ->]; [left; reflexivity|right].
  rewrite !PyStrFacts.append_assoc. reflexivity.
Qed.

Lemma match_arn_pattern_app (p r a i : string) :
  arn_field p = true → arn_field r = true → arn_field a = true →
  i ≠ "" → one_line i = true →
  match_arn_pattern (InputParser.connect_arn p r a i) = Some (p, r, a, i).
Proof.
  intros [Hp Hcp]%arn_field_inv [Hr Hcr]%arn_field_inv [Ha Hca]%arn_field_inv Hi Hl.
  unfold match_arn_pattern, InputParser.connect_arn.
  rewrite strip_prefix_app. cbn [mbind option_bind].
  change (":connect:" ++ ?x) with (String ":" ("connect:" ++ x)).
  rewrite (until_colon_app p _ Hcp). cbn [mbind option_bind].
  apply String.eqb_neq in Hp as ->.
  rewrite strip_prefix_app. cbn [mbind option_bind].
  change (":" ++ ?x) with (String ":" x).
  rewrite (until_colon_app r _ Hcr). cbn [mbind option_bind].
  apply String.eqb_neq in Hr as ->.
  change (":instance/" ++ ?x) with (String ":" ("instance/" ++ x)).
  rewrite (until_colon_app a _ Hca). cbn [mbind option_bind].
  apply String.eqb_neq in Ha as ->.
  rewrite strip_prefix_app. cbn [mbind option_bind].
  by rewrite (dot_plus_end_line i Hi Hl).
Qed.

Lemma parse_connect_arn (p r a i : string) :
  arn_field p = true → arn_field r = true → arn_field a = true →
  uuid36 i = true →
  parse_connect_instance_arn (InputParser.connect_arn p r a i)
  = Ok {| partition := p; region := r; account_id := a; instance_id := i |}.
Proof.
  intros Hp Hr Ha Hi.
  destruct (uuid36_chars i Hi) as [Hh Hlen].
  destruct (hex_or_hyphen_field i Hh) as [_ Hline].
  assert (Hne : i ≠ "") by (by intros ->).
  unfold parse_connect_instance_arn.
  rewrite (match_arn_pattern_app p r a i Hp Hr Ha Hne Hline).
  apply arn_field_inv in Hp as [Hp _], Hr as [Hr _], Ha as [Ha _].
  apply String.eqb_neq in Hp as ->, Hr as ->, Ha as ->, Hne as ->.
  rewrite (uuid36_match i Hi). cbn [negb].
  unfold InputParser.connect_arn.
  reflexivity.
Qed.
(** X8. An ARN assembled as [parse_input_parameters] assembles it, from a
    partition, a region and an account id that are non-empty and hold no
    colon and from a UUID, is parsed back into exactly these four
    components. *)
Theorem parse_round_trip (p r a i : string) :
  arn_field p = true → arn_field r = true → arn_field a = true →
  uuid36 i = true →
  parse_connect_instance_arn (InputParser.connect_arn p r a i)
  = Ok {| partition := p; region := r; account_id := a; instance_id := i |}.
Proof.
  intros Hp Hr Ha Hi.
  destruct (uuid36_chars i Hi) as [Hh Hlen].
  destruct (hex_or_hyphen_field i Hh) as [_ Hline].
  assert (Hne : i ≠ "") by (by intros ->).
  unfold parse_connect_instance_arn.
  rewrite (match_arn_pattern_app p r a i Hp Hr Ha Hne Hline).
  apply arn_field_inv in Hp as [Hp _], Hr as [Hr _], Ha as [Ha _].
  apply String.eqb_neq in Hp as ->, Hr as ->, Ha as ->, Hne as ->.
  rewrite (uuid36_match i Hi). cbn [negb].
  unfold InputParser.connect_arn.
  reflexivity.
Qed.

Lemma parse_round_trip_witness :
  parse_connect_instance_arn sample_arn
  = Ok {| partition := "aws"; region := "us-west-2";
          account_id := "409137744801"; instance_id := sample_uuid |}.
Proof.
  exact (parse_round_trip "aws" "us-west-2" "409137744801" sample_uuid
           eq_refl eq_refl eq_refl eq_refl).
Defined.

Lemma parse_ok_inv (arn : string) (c : components) :
  parse_connect_instance_arn arn = Ok c →
  arn_field (partition c) = true ∧ arn_field (region c) = true
  ∧ arn_field (account_id c) = true ∧ uuid36 (instance_id c) = true
  ∧ (arn = InputParser.connect_arn (partition c) (region c) (account_id c)
             (instance_id c)
     ∨ arn = InputParser.connect_arn (partition c) (region c) (account_id c)
               (instance_id c) ++ String LF EmptyString).
Proof.
  unfold parse_connect_instance_arn. intros H.
  destruct (String.eqb arn ""); [done|].
  destruct (match_arn_pattern arn) as [[[[p r] a] i]|] eqn:Hm; [|done].
  destruct (String.eqb p ""); [done|]. destruct (String.eqb r ""); [done|].
  destruct (String.eqb a ""); [done|]. destruct (String.eqb i ""); [done|].
  destruct (match_uuid i) eqn:Hu; [|done]. cbn [negb] in H.
  injection H as <-. cbn [partition region account_id instance_id].
  apply match_arn_pattern_inv in Hm as (Hp & Hr & Ha & Hi & Hl & Harn).
  by rewrite (match_uuid_one_line i Hl Hu).
Qed.

(** X9. Whatever [parse_connect_instance_arn] accepts is such an ARN: the
    components it returns are non-empty and colon-free, the instance id is
    a UUID, and the argument is the ARN assembled from them, possibly
    followed by one newline (which both patterns' [$] lets through). *)
Theorem parse_accepts_only_connect_arns (arn : string) (c : components) :
  parse_connect_instance_arn arn = Ok c →
  arn_field (partition c) = true ∧ arn_field (region c) = true
  ∧ arn_field (account_id c) = true ∧ uuid36 (instance_id c) = true
  ∧ (arn = InputParser.connect_arn (partition c) (region c) (account_id c)
             (instance_id c)
     ∨ arn = InputParser.connect_arn (partition c) (region c) (account_id c)
               (instance_id c) ++ String LF EmptyString).
Proof.
  unfold parse_connect_instance_arn. intros H.
  destruct (String.eqb arn ""); [done|].
  destruct (match_arn_pattern arn) as [[[[p r] a] i]|] eqn:Hm; [|done].
  destruct (String.eqb p ""); [done|]. destruct (String.eqb r ""); [done|].
  destruct (String.eqb a ""); [done|]. destruct (String.eqb i ""); [done|].
  destruct (match_uuid i) eqn:Hu; [|done]. cbn [negb] in H.
  injection H as <-. cbn [partition region account_id instance_id].
  apply match_arn_pattern_inv in Hm as (Hp & Hr & Ha & Hi & Hl & Harn).
  by rewrite (match_uuid_one_line i Hl Hu).
Qed.

Lemma parse_accepts_only_connect_arns_witness :
  arn_field "aws" = true ∧ arn_field "us-west-2" = true
  ∧ arn_field "409137744801" = true ∧ uuid36 sample_uuid = true
  ∧ (sample_arn
     = InputParser.connect_arn "aws" "us-west-2" "409137744801" sample_uuid
     ∨ sample_arn
       = InputParser.connect_arn "aws" "us-west-2" "409137744801" sample_uuid
           ++ String LF EmptyString).
Proof.
  exact (parse_accepts_only_connect_arns sample_arn
           {| partition := "aws"; region := "us-west-2";
              account_id := "409137744801"; instance_id := sample_uuid |}
           eq_refl).
Defined.

(** The other three functions on an ARN of this shape, whatever its
    resource part. *)
Lemma extractors_on_connect_arn (p r a x : string) :
  arn_field p = true → arn_field r = true → arn_field a = true →
  extract_region_from_arn (InputParser.connect_arn p r a x) = Some r
  ∧ extract_account_id_from_arn (InputParser.connect_arn p r a x) = Some a
  ∧ validate_arn_format (InputParser.connect_arn p r a x) "connect" = true.
Proof.
  intros [Hp Hcp]%arn_field_inv [Hr Hcr]%arn_field_inv [Ha Hca]%arn_field_inv.
  assert (Hsplit : split ":" (InputParser.connect_arn p r a x)
                   = "arn" :: p :: "connect" :: r :: a
                       :: split ":" ("instance/" ++ x)).
  { unfold InputParser.connect_arn.
    change ("arn:" ++ ?y) with ("arn" ++ String ":" y).
    rewrite (ConditionalProps.split_at_separator ":" "arn") by reflexivity.
    change (":connect:" ++ ?y) with (String ":" ("connect" ++ String ":" y)).
    rewrite (ConditionalProps.split_at_separator ":" p) by exact Hcp.
    rewrite (ConditionalProps.split_at_separator ":" "connect") by reflexivity.
    change (":" ++ ?y) with (String ":" y).
    rewrite (ConditionalProps.split_at_separator ":" r) by exact Hcr.
    change (":instance/" ++ ?y) with (String ":" ("instance/" ++ y)).
    rewrite (ConditionalProps.split_at_separator ":" a) by exact Hca.
    reflexivity. }
  assert (Hne : String.eqb (InputParser.connect_arn p r a x) "" = false)
    by reflexivity.
  apply String.eqb_neq in Hp, Hr, Ha.
  split; [|split].
  - unfold extract_region_from_arn. rewrite Hne, Hsplit. cbn. by rewrite Hr.
  - unfold extract_account_id_from_arn. rewrite Hne, Hsplit. cbn. by rewrite Ha.
  - unfold validate_arn_format. rewrite Hne. cbn [orb String.eqb Ascii.eqb].
    unfold match_basic_pattern, InputParser.connect_arn.
    rewrite strip_prefix_app. cbn [mbind option_bind].
    change (":connect:" ++ ?y) with (String ":" ("connect" ++ ":" ++ y)).
    rewrite (until_colon_app p _ Hcp). cbn [mbind option_bind]. rewrite Hp.
    rewrite strip_prefix_app. cbn [mbind option_bind].
    rewrite strip_prefix_app. cbn [mbind option_bind].
    change (":" ++ ?y) with (String ":" y).
    rewrite (until_colon_app r _ Hcr). cbn [mbind option_bind].
    change (":instance/" ++ ?y) with (String ":" ("instance/" ++ y)).
    rewrite (until_colon_app a _ Hca). cbn [mbind option_bind].
    reflexivity.
Qed.

(** X10. On every ARN that [parse_connect_instance_arn] accepts, the
    generic helpers agree with it: [extract_region_from_arn] and
    [extract_account_id_from_arn] return the parsed region and account id,
    and [validate_arn_format] accepts the ARN for the service connect. *)
Theorem parse_agrees_with_extractors (arn : string) (c : components) :
  parse_connect_instance_arn arn = Ok c →
  extract_region_from_arn arn = Some (region c)
  ∧ extract_account_id_from_arn arn = Some (account_id c)
  ∧ validate_arn_format arn "connect" = true.
Proof.
  intros H. unfold parse_connect_instance_arn in H.
  destruct (String.eqb arn ""); [done|].
  destruct (match_arn_pattern arn) as [[[[p r] a] i]|] eqn:Hm; [|done].
  destruct (String.eqb p ""); [done|]. destruct (String.eqb r ""); [done|].
  destruct (String.eqb a ""); [done|]. destruct (String.eqb i ""); [done|].
  destruct (negb (match_uuid i)); [done|].
  injection H as <-. cbn [partition region account_id instance_id].
  apply match_arn_pattern_inv in Hm as (Hp & Hr & Ha & _ & _ & Harn).
  destruct Harn as [->| ->].
  - by apply extractors_on_connect_arn.
  - replace (InputParser.connect_arn p r a i ++ String LF EmptyString)
      with (InputParser.connect_arn p r a (i ++ String LF EmptyString)).
    + by apply extractors_on_connect_arn.
    + unfold InputParser.connect_arn. rewrite !PyStrFacts.append_assoc.
      reflexivity.
Qed.

Lemma parse_agrees_with_extractors_witness :
  extract_region_from_arn sample_arn = Some "us-west-2"
  ∧ extract_account_id_from_arn sample_arn = Some "409137744801"
  ∧ validate_arn_format sample_arn "connect" = true.
Proof.
  exact (parse_agrees_with_extractors sample_arn
           {| partition := "aws"; region := "us-west-2";
              account_id := "409137744801"; instance_id := sample_uuid |}
           eq_refl).
Defined.

(** X11. [parse_connect_instance_arn] raises with one of three messages
    only: the four checks that a component "cannot be empty" never fire,
    since the pattern's groups match one character at least. *)
Theorem parse_error_messages (arn msg : string) :
  parse_connect_instance_arn arn = ValueError msg →
  (arn = "" ∧ msg = "ARN cannot be empty")
  ∨ (match_arn_pattern arn = None
     ∧ msg = "Invalid Connect instance ARN format: " ++ arn)
  ∨ (∃ p r a i, match_arn_pattern arn = Some (p, r, a, i)
                ∧ match_uuid i = false
                ∧ msg = "Invalid Connect instance ID format: " ++ i).
Proof.
  unfold parse_connect_instance_arn. intros H.
  destruct (String.eqb_spec arn "") as [->|Hne].
  { left. by injection H as <-. }
  destruct (match_arn_pattern arn) as [[[[p r] a] i]|] eqn:Hm.
  2:{ right; left. by injection H as <-. }
  right; right. exists p, r, a, i. split; [done|].
  apply match_arn_pattern_inv in Hm as (Hp & Hr & Ha & Hi & _ & _).
  apply arn_field_inv in Hp as [Hp _], Hr as [Hr _], Ha as [Ha _].
  apply String.eqb_neq in Hp, Hr, Ha, Hi. rewrite Hp, Hr, Ha, Hi in H.
  destruct (match_uuid i); [done|]. cbn [negb] in H. by injection H as <-.
Qed.

Lemma parse_error_messages_witness :
  ("arn:aws:connect:us-west-2:409137744801:instance/abc" = ""
   ∧ "Invalid Connect instance ID format: abc" = "ARN cannot be empty")
  ∨ (match_arn_pattern "arn:aws:connect:us-west-2:409137744801:instance/abc" = None
     ∧ "Invalid Connect instance ID format: abc"
       = "Invalid Connect instance ARN format: "
           ++ "arn:aws:connect:us-west-2:409137744801:instance/abc")
  ∨ (∃ p r a i,
        match_arn_pattern "arn:aws:connect:us-west-2:409137744801:instance/abc"
        = Some (p, r, a, i)
        ∧ match_uuid i = false
        ∧ "Invalid Connect instance ID format: abc"
          = "Invalid Connect instance ID format: " ++ i).
Proof.
  exact (parse_error_messages
           "arn:aws:connect:us-west-2:409137744801:instance/abc"
           "Invalid Connect instance ID format: abc" eq_refl).
Defined.

End ArnProps.

(** ** Execution ids *)

Module IdUtilsProps.
Import PyStr PyChars IdUtils ExtraSpec ExtraSamples.

Lemma digit_id_char (n : nat) : id_char (digit n) = true.
Proof.
  unfold digit. pose proof (Nat.mod_upper_bound n 10 ltac:(done)) as Hlt.
  destruct (n mod 10)%nat as [|[|[|[|[|[|[|[|[|[|k]]]]]]]]]]; try reflexivity.
  exfalso. lia.
Qed.

Lemma strftime_chars (now : datetime) :
  all_chars id_char (strftime now) = true
  ∧ String.length (strftime now) = 15%nat.
Proof.
  split; [|reflexivity].
  assert (H2 : ∀ n, all_chars id_char (two_digits n) = true).
  { intros n. unfold two_digits. cbn [all_chars]. by rewrite !digit_id_char. }
  assert (H4 : ∀ n, all_chars id_char (four_digits n) = true).
  { intros n. unfold four_digits. cbn [all_chars]. by rewrite !digit_id_char, H2. }
  unfold strftime. rewrite !ArnProps.all_chars_app, H4, !H2. reflexivity.
Qed.

(** Removing the hyphens leaves a run of hexadecimal digits as it is. *)
Lemma take_replace_hex (h r : string) :
  all_chars is_hex h = true →
  take (String.length h) (replace "-" "" (h ++ r)) = h.
Proof.
  unfold replace. induction h as [|c h IH]; intros Hh.
  - by destruct (replace_from "-" "" ("" ++ r) 0).
  - cbn [all_chars] in Hh. apply andb_true_iff in Hh as [Hc Hh].
    change (String c h ++ r) with (String c (h ++ r)).
    rewrite PyStrFacts.replace_from_cons, PyStrFacts.prefix_single.
    destruct (Ascii.eqb_spec "-" c) as [<-|_]; [done|].
    cbn [String.length take]. by rewrite (IH Hh).
Qed.

Lemma take_app_length (h r : string) : take (String.length h) (h ++ r) = h.
Proof.
  induction h as [|c h IH]; [by destruct r|].
  change (String c h ++ r) with (String c (h ++ r)).
  cbn [String.length take]. by rewrite IH.
Qed.

Lemma hex_id_char (s : string) :
  all_chars is_hex s = true → all_chars id_char s = true.
Proof.
  apply ArnProps.all_chars_impl. intros c Hc. by apply ArnProps.is_hex_cases.
Qed.

(** The short uuid of a UUID: its first eight characters, all
    hexadecimal digits. *)
Lemma short_uuid (uuid4 : string) :
  uuid36 uuid4 = true →
  take 8 (replace "-" "" uuid4) = take 8 uuid4
  ∧ all_chars is_hex (take 8 uuid4) = true
  ∧ String.length (take 8 uuid4) = 8%nat.
Proof.
  unfold uuid36. destruct (hex_run 8 uuid4) as [r|] eqn:Hr; [|done]. intros _.
  apply ArnProps.hex_run_inv in Hr as (h & -> & Hh & Hlen).
  rewrite <- Hlen, take_replace_hex, take_app_length by done. done.
Qed.

Lemma generate_execution_id_valid (now : datetime) (uuid4 : string) :
  uuid36 uuid4 = true →
  is_valid_execution_id (Placeholder.VStr (generate_execution_id now uuid4)) = true
  ∧ String.length (generate_execution_id now uuid4) = 27%nat
  ∧ generate_execution_id now uuid4
    = "hc-" ++ strftime now ++ "-" ++ take 8 uuid4.
Proof.
  intros Hu. destruct (short_uuid uuid4 Hu) as (Hshort & Hhex & Hlen).
  destruct (strftime_chars now) as [Hchars Hlen'].
  assert (Hid : generate_execution_id now uuid4
                = "hc-" ++ strftime now ++ "-" ++ take 8 uuid4).
  { unfold generate_execution_id. cbv zeta. by rewrite Hshort. }
  assert (Hl : String.length (generate_execution_id now uuid4) = 27%nat).
  { rewrite Hid, !PyStrFacts.length_append, Hlen, Hlen'. reflexivity. }
  split; [|done].
  unfold is_valid_execution_id. rewrite Hl.
  destruct (String.eqb_spec (generate_execution_id now uuid4) "") as [He|_].
  { by rewrite He in Hl. }
  cbn [Nat.ltb Nat.leb orb].
  rewrite Hid, !ArnProps.all_chars_app, Hchars, (hex_id_char _ Hhex).
  reflexivity.
Qed.

(** X12. For a reading of the clock and a UUID, the id that
    [generate_execution_id] builds is one that [is_valid_execution_id]
    accepts: 27 characters, [hc-], the timestamp, a hyphen and the first
    eight hexadecimal digits of the UUID. *)
Theorem generated_execution_id_is_valid (now : datetime) (uuid4 : string) :
  plausible now → uuid36 uuid4 = true →
  is_valid_execution_id (Placeholder.VStr (generate_execution_id now uuid4)) = true
  ∧ String.length (generate_execution_id now uuid4) = 27%nat
  ∧ generate_execution_id now uuid4
    = "hc-" ++ strftime now ++ "-" ++ take 8 uuid4.
Proof.
  intros _ Hu. destruct (short_uuid uuid4 Hu) as (Hshort & Hhex & Hlen).
  destruct (strftime_chars now) as [Hchars Hlen'].
  assert (Hid : generate_execution_id now uuid4
                = "hc-" ++ strftime now ++ "-" ++ take 8 uuid4).
  { unfold generate_execution_id. cbv zeta. by rewrite Hshort. }
  assert (Hl : String.length (generate_execution_id now uuid4) = 27%nat).
  { rewrite Hid, !PyStrFacts.length_append, Hlen, Hlen'. reflexivity. }
  split; [|done].
  unfold is_valid_execution_id. rewrite Hl.
  destruct (String.eqb_spec (generate_execution_id now uuid4) "") as [He|_].
  { by rewrite He in Hl. }
  cbn [Nat.ltb Nat.leb orb].
  rewrite Hid, !ArnProps.all_chars_app, Hchars, (hex_id_char _ Hhex).
  reflexivity.
Qed.

Lemma generated_execution_id_is_valid_witness :
  is_valid_execution_id
    (Placeholder.VStr (generate_execution_id sample_now sample_uuid)) = true
  ∧ String.length (generate_execution_id sample_now sample_uuid) = 27%nat
  ∧ generate_execution_id sample_now sample_uuid
    = "hc-" ++ strftime sample_now ++ "-" ++ take 8 sample_uuid.
Proof.
  apply (generated_execution_id_is_valid sample_now sample_uuid).
  - unfold plausible. vm_compute. lia.
  - reflexivity.
Defined.

End IdUtilsProps.

(** ** The input parser and the handler's use of its result *)

Module InputParserProps.
Import PyStr PyChars InputParser ExtraSpec ExtraSamples.

Lemma truthy_Some (s : string) : truthy (Some s) = negb (String.eqb s "").
Proof. by destruct s. Qed.

Lemma truthy_inv (o : option string) :
  truthy o = true → ∃ s, o = Some s ∧ s ≠ "".
Proof. destruct o as [[|c s]|]; try done. intros _. by eexists. Qed.

Lemma lower_empty (s : string) : lower s = "" ↔ s = "".
Proof. by destruct s. Qed.

Lemma partition_of_field (region : string) : arn_field (partition_of region) = true.
Proof.
  unfold partition_of.
  destruct (startswith "cn-" region); [reflexivity|].
  by destruct (startswith "us-gov-" region).
Qed.

(** What a successful parse has gone through. *)
Lemma parse_body_inv (e : environment) (ev : event) (h : HealthCheckInput) :
  parse_body e ev = Ok h →
  ∃ arn c id,
    build_arn e = Ok (Some arn)
    ∧ choose_execution_id e ev = Ok id
    ∧ truthy (environ e !! "VERSION") = true
    ∧ truthy (environ e !! "CALL_CENTER_API_NAME") = true
    ∧ lower (get_or (environ e) "SKU" "") ≠ ""
    ∧ Arn.parse_connect_instance_arn arn = Ok c
    ∧ truthy (environ e !! "S3_BUCKET_FOR_TENANT_RESOURCES") = true
    ∧ h = {| cc_version := default "" (environ e !! "VERSION");
             cc_name := default "" (environ e !! "CALL_CENTER_API_NAME");
             sku := lower (get_or (environ e) "SKU" "");
             Models.execution_id := Some id;
             connect_instance_arn := arn;
             s3_bucket_for_tenant_resources :=
               environ e !! "S3_BUCKET_FOR_TENANT_RESOURCES";
             s3_bucket_for_reports := environ e !! "S3_BUCKET_FOR_REPORTS";
             Models.region := Some (Arn.region c);
             connect_instance_id := Some (Arn.instance_id c);
             Models.account_id := Some (Arn.account_id c);
             Models.partition := Some (Arn.partition c);
             lambda_prefix := environ e !! "LAMBDA_PREFIX";
             call_center_api_name := environ e !! "CALL_CENTER_API_NAME";
             include_detailed_errors := default true (ev_include_detailed_errors ev);
             max_threads := default 10%Z (ev_max_threads ev) |}.
Proof.
  unfold parse_body. intros H.
  destruct (build_arn e) as [arn|] eqn:Harn; [|done]. cbn [bind] in H.
  destruct (choose_execution_id e ev) as [id|] eqn:Hid; [|done]. cbn [bind] in H.
  cbn [List.filter map fst snd negb] in H.
  destruct (truthy (environ e !! "VERSION")) eqn:Hv;
    destruct (truthy (environ e !! "CALL_CENTER_API_NAME")) eqn:Hn;
    destruct (truthy (Some (lower (get_or (environ e) "SKU" "")))) eqn:Hs;
    destruct (truthy arn) eqn:Ha;
    cbn [negb map fst] in H; try discriminate H.
  apply truthy_inv in Ha as (arn' & -> & Hne).
  change (default "" (Some arn')) with arn' in H.
  destruct (Arn.parse_connect_instance_arn arn') as [c|] eqn:Hc;
    cbv beta iota in H; [|done].
  destruct (ArnProps.parse_ok_inv arn' c Hc) as (_ & Hr & _).
  apply ArnProps.arn_field_inv in Hr as [Hr _].
  apply String.eqb_neq in Hr. rewrite Hr, andb_false_r in H.
  destruct (truthy (environ e !! "S3_BUCKET_FOR_TENANT_RESOURCES")) eqn:Hb;
    cbn [negb] in H; [|done].
  injection H as <-.
  exists arn', c, id. repeat split; try done.
  rewrite truthy_Some in Hs. by apply negb_true_iff, String.eqb_neq in Hs.
Qed.

Lemma parse_input_parameters_inv (e : environment) (ev : event) (h : HealthCheckInput) :
  parse_input_parameters e ev = Ok h → parse_body e ev = Ok h.
Proof.
  unfold parse_input_parameters. by destruct (parse_body e ev); [intros [= ->]|].
Qed.

(** X13. The input that [parse_input_parameters] returns is consistent:
    its ARN parses into exactly the region, account id, partition and
    instance id it carries, the instance id is a UUID, the region is never
    taken from the fall-back, and the handler's check of the components
    ("Invalid ARN components extracted") cannot fail on it. *)
Theorem parsed_input_is_consistent (e : environment) (ev : event) (h : HealthCheckInput) :
  parse_input_parameters e ev = Ok h →
  ∃ c : Arn.components,
    Arn.parse_connect_instance_arn (connect_instance_arn h) = Ok c
    ∧ Models.region h = Some (Arn.region c)
    ∧ Models.account_id h = Some (Arn.account_id c)
    ∧ Models.partition h = Some (Arn.partition c)
    ∧ connect_instance_id h = Some (Arn.instance_id c)
    ∧ uuid36 (Arn.instance_id c) = true
    ∧ truthy (Models.region h) = true
    ∧ Handler.check_components h = Ok tt.
Proof.
  intros H%parse_input_parameters_inv%parse_body_inv.
  destruct H as (arn & c & id & _ & _ & _ & _ & _ & Hc & _ & ->).
  exists c.
  destruct (ArnProps.parse_ok_inv arn c Hc) as (Hp & Hr & Ha & Hi & _).
  destruct (ArnProps.uuid36_chars _ Hi) as [_ Hlen].
  apply ArnProps.arn_field_inv in Hp as [Hp _], Hr as [Hr _], Ha as [Ha _].
  unfold Handler.check_components.
  cbn [connect_instance_arn Models.region Models.account_id Models.partition
       connect_instance_id].
  rewrite !truthy_Some.
  apply String.eqb_neq in Hp as ->, Hr as ->, Ha as ->.
  by destruct (Arn.instance_id c).
Qed.

Lemma parsed_input_is_consistent_witness :
  ∃ h : HealthCheckInput,
    parse_input_parameters sample_environment empty_event = Ok h
    ∧ ∃ c : Arn.components,
        Arn.parse_connect_instance_arn (connect_instance_arn h) = Ok c
        ∧ Models.region h = Some (Arn.region c)
        ∧ Models.account_id h = Some (Arn.account_id c)
        ∧ Models.partition h = Some (Arn.partition c)
        ∧ connect_instance_id h = Some (Arn.instance_id c)
        ∧ uuid36 (Arn.instance_id c) = true
        ∧ truthy (Models.region h) = true
        ∧ Handler.check_components h = Ok tt.
Proof.
  eexists. split; [vm_compute; reflexivity|].
  apply (parsed_input_is_consistent sample_environment empty_event).
  vm_compute. reflexivity.
Defined.

Lemma truthy_ne (s : string) : s ≠ "" → truthy (Some s) = true.
Proof. by destruct s. Qed.

(** X14. With the environment CloudFormation and the Lambda runtime set
    up (version, call-center name, SKU and tenant bucket not empty, the
    instance id a UUID, the region and the account id not empty and
    without colon) and an execution id that is absent or valid, the parser
    returns; the input holds the environment's values, the SKU in lower
    case, the partition of the region, and the defaults [True] and [10]. *)
Theorem well_formed_environment_parses
        (e : environment) (ev : event)
        (version name sku_ instance_id region account bucket id : string) :
  environ e !! "VERSION" = Some version → version ≠ "" →
  environ e !! "CALL_CENTER_API_NAME" = Some name → name ≠ "" →
  environ e !! "SKU" = Some sku_ → sku_ ≠ "" →
  environ e !! "CONNECT_INSTANCE_ID" = Some instance_id → uuid36 instance_id = true →
  environ e !! "AWS_REGION" = Some region → arn_field region = true →
  sts_account e = Some account → arn_field account = true →
  environ e !! "S3_BUCKET_FOR_TENANT_RESOURCES" = Some bucket → bucket ≠ "" →
  choose_execution_id e ev = Ok id →
  parse_input_parameters e ev
  = Ok {| cc_version := version;
          cc_name := name;
          sku := lower sku_;
          Models.execution_id := Some id;
          connect_instance_arn :=
            connect_arn (partition_of region) region account instance_id;
          s3_bucket_for_tenant_resources := Some bucket;
          s3_bucket_for_reports := environ e !! "S3_BUCKET_FOR_REPORTS";
          Models.region := Some region;
          connect_instance_id := Some instance_id;
          Models.account_id := Some account;
          Models.partition := Some (partition_of region);
          lambda_prefix := environ e !! "LAMBDA_PREFIX";
          call_center_api_name := Some name;
          include_detailed_errors := default true (ev_include_detailed_errors ev);
          max_threads := default 10%Z (ev_max_threads ev) |}.
Proof.
  intros Hv Hv' Hn Hn' Hs Hs' Hi Hi' Hr Hr' Ha Ha' Hb Hb' Hid.
  destruct (ArnProps.uuid36_chars _ Hi') as [_ Hlen].
  assert (Hine : instance_id ≠ "") by (by intros ->).
  unfold parse_input_parameters, parse_body, build_arn, get_or.
  rewrite Hv, Hn, Hs, Hi, Hr, Ha, Hb, Hid.
  rewrite !truthy_ne by done. cbn [bind default from_option Datatypes.id].
  assert (Hl : truthy (Some (lower sku_)) = true).
  { apply truthy_ne. by rewrite lower_empty. }
  cbn [List.filter map fst snd negb]. rewrite Hl, !truthy_ne by done.
  cbn [negb map].
  rewrite (ArnProps.parse_connect_arn _ _ _ _ (partition_of_field region)
             Hr' Ha' Hi').
  cbn [Arn.region Arn.partition Arn.account_id Arn.instance_id].
  apply ArnProps.arn_field_inv in Hr' as [Hr' _].
  apply String.eqb_neq in Hr' as ->. rewrite andb_false_r.
  reflexivity.
Qed.

Lemma well_formed_environment_parses_witness :
  parse_input_parameters sample_environment empty_event
  = Ok {| cc_version := "19.0";
          cc_name := "callorigintest";
          sku := lower "MULTIORG";
          Models.execution_id := Some "hc-20241218-143052-a1b2c3d4";
          connect_instance_arn :=
            connect_arn (partition_of "us-west-2") "us-west-2" "409137744801"
              sample_uuid;
          s3_bucket_for_tenant_resources := Some "callorigintest-409137744801";
          s3_bucket_for_reports :=
            environ sample_environment !! "S3_BUCKET_FOR_REPORTS";
          Models.region := Some "us-west-2";
          connect_instance_id := Some sample_uuid;
          Models.account_id := Some "409137744801";
          Models.partition := Some (partition_of "us-west-2");
          lambda_prefix := environ sample_environment !! "LAMBDA_PREFIX";
          call_center_api_name := Some "callorigintest";
          include_detailed_errors :=
            default true (ev_include_detailed_errors empty_event);
          max_threads := default 10%Z (ev_max_threads empty_event) |}.
Proof.
  apply (well_formed_environment_parses sample_environment empty_event
           "19.0" "callorigintest" "MULTIORG" sample_uuid "us-west-2"
           "409137744801" "callorigintest-409137744801"
           "hc-20241218-143052-a1b2c3d4");
    first [ by vm_compute | vm_compute; reflexivity ].
Defined.

Lemma choose_execution_id_valid (e : environment) (ev : event) (id : string) :
  uuid36 (uuid4 e) = true →
  choose_execution_id e ev = Ok id →
  IdUtils.is_valid_execution_id (Placeholder.VStr id) = true
  ∧ (truthy (ev_execution_id ev) = true → ev_execution_id ev = Some id)
  ∧ (truthy (ev_execution_id ev) = false
     → id = IdUtils.generate_execution_id (utcnow e) (uuid4 e)).
Proof.
  intros Hu. unfold choose_execution_id.
  destruct (truthy (ev_execution_id ev)) eqn:Ht.
  - apply truthy_inv in Ht as (s & Hs & _). rewrite Hs. cbn [default from_option Datatypes.id].
    destruct (IdUtils.is_valid_execution_id (Placeholder.VStr s)) eqn:Hv; [|done].
    by intros [= <-].
  - intros [= <-]. split; [|done].
    by apply IdUtilsProps.generate_execution_id_valid.
Qed.

(** X15. Every input the parser returns carries an execution id that
    [is_valid_execution_id] accepts: the event's id when it has one (an
    invalid one is refused), and else the generated id, [uuid.uuid4()]
    giving a UUID. *)
Theorem parsed_execution_id_is_valid (e : environment) (ev : event)
        (h : HealthCheckInput) :
  uuid36 (uuid4 e) = true →
  parse_input_parameters e ev = Ok h →
  ∃ id : string,
    Models.execution_id h = Some id
    ∧ IdUtils.is_valid_execution_id (Placeholder.VStr id) = true
    ∧ (truthy (ev_execution_id ev) = true → ev_execution_id ev = Some id)
    ∧ (truthy (ev_execution_id ev) = false
       → id = IdUtils.generate_execution_id (utcnow e) (uuid4 e)).
Proof.
  intros Hu H%parse_input_parameters_inv%parse_body_inv.
  destruct H as (arn & c & id & _ & Hid & _ & _ & _ & _ & _ & ->).
  exists id. split; [reflexivity|]. by apply choose_execution_id_valid.
Qed.

Lemma parsed_execution_id_is_valid_witness :
  ∃ h : HealthCheckInput,
    parse_input_parameters sample_environment no_workers_event = Ok h
    ∧ ∃ id : string,
        Models.execution_id h = Some id
        ∧ IdUtils.is_valid_execution_id (Placeholder.VStr id) = true
        ∧ (truthy (ev_execution_id no_workers_event) = true
           → ev_execution_id no_workers_event = Some id)
        ∧ (truthy (ev_execution_id no_workers_event) = false
           → id = IdUtils.generate_execution_id (utcnow sample_environment)
                    (uuid4 sample_environment)).
Proof.
  eexists. split; [vm_compute; reflexivity|].
  apply (parsed_execution_id_is_valid sample_environment no_workers_event).
  - vm_compute. reflexivity.
  - vm_compute. reflexivity.
Defined.

Lemma parsed_input_fields (e : environment) (ev : event) (h : HealthCheckInput) :
  parse_input_parameters e ev = Ok h →
  ∃ c : Arn.components,
    connect_instance_id h = Some (Arn.instance_id c)
    ∧ lambda_prefix h = environ e !! "LAMBDA_PREFIX"
    ∧ uuid36 (Arn.instance_id c) = true.
Proof.
  intros H%parse_input_parameters_inv%parse_body_inv.
  destruct H as (arn & c & id & _ & _ & _ & _ & _ & Hc & _ & ->).
  exists c. split; [done|]. split; [done|].
  by destruct (ArnProps.parse_ok_inv arn c Hc) as (_ & _ & _ & Hi & _).
Qed.



End InputParserProps.

(** ** The handler's placeholder map and stream references *)

Module HandlerProps.
Import PyStr Placeholder PlaceholderSpec Handler ExtraSamples.

Lemma placeholder_map_lookup (health_input : HealthCheckInput)
      (region ACCOUNT_ID partition : string) :
  let m := placeholder_map health_input region ACCOUNT_ID partition in
  m !! "LambdaPrefix" = Some (or_else (lambda_prefix health_input) "")
  ∧ m !! "lambdaPrefix" = Some (or_else (lambda_prefix health_input) "")
  ∧ m !! "ConnectInstanceId"
    = Some (or_else (connect_instance_id health_input) "ConnectInstanceId").
Proof. by vm_compute. Qed.

Lemma available_or_else (x : option string) :
  available (Some (or_else x "")) = available x.
Proof. by destruct x as [[|c s]|]. Qed.

Lemma por_same (x : option string) : por x x = x.
Proof. unfold por. by destruct (truthy x). Qed.

(** X17. In the context the handler builds from a parsed input, both
    spellings of the lambda prefix hold the value of [LAMBDA_PREFIX], so
    the lookup of the conditional resolver and that of the fix-up and
    cleanup passes agree and give that value when it is usable; and the
    resolver can attempt stream discovery exactly when it is. *)
Theorem handler_lambda_prefix (e : InputParser.environment) (ev : InputParser.event)
        (h : HealthCheckInput) (region ACCOUNT_ID partition : string) :
  InputParser.parse_input_parameters e ev = Ok h →
  let m := placeholder_map h region ACCOUNT_ID partition in
  let lambda_prefix := available (InputParser.environ e !! "LAMBDA_PREFIX") in
  priority_prefix m = lambda_prefix
  ∧ cleanup_prefix m = lambda_prefix
  ∧ discovery_possible m = bool_decide (is_Some lambda_prefix).
Proof.
  intros H m.
  destruct (placeholder_map_lookup h region ACCOUNT_ID partition)
    as (HL & Hl & Hc). fold m in HL, Hl, Hc.
  destruct (InputParserProps.parsed_input_fields e ev h H)
    as (c & Hid & Hlp & Hu).
  unfold discovery_possible, priority_prefix, cleanup_prefix.
  rewrite HL, Hl, Hc, por_same, available_or_else, Hlp, Hid.
  split; [done|]. split; [done|].
  destruct (ArnProps.uuid36_chars _ Hu) as [_ Hlen].
  assert (Hne : Arn.instance_id c ≠ "ConnectInstanceId") by (by intros Heq; rewrite Heq in Hlen).
  assert (Hne' : Arn.instance_id c ≠ "") by (by intros Heq; rewrite Heq in Hlen).
  unfold or_else. rewrite (InputParserProps.truthy_ne _ Hne').
  cbn [default from_option Datatypes.id].
  rewrite (InputParserProps.truthy_ne _ Hne'), andb_true_r.
  rewrite (bool_decide_eq_false_2 (Some (Arn.instance_id c) = Some "ConnectInstanceId"))
    by (by intros [= ?]).
  cbn [negb]. by rewrite !andb_true_r.
Qed.

Lemma handler_lambda_prefix_witness :
  ∃ h : HealthCheckInput,
    InputParser.parse_input_parameters sample_environment empty_event = Ok h
    ∧ let m := placeholder_map h "us-west-2" "409137744801" "aws" in
      let lambda_prefix :=
        available (InputParser.environ sample_environment !! "LAMBDA_PREFIX") in
      priority_prefix m = lambda_prefix
      ∧ cleanup_prefix m = lambda_prefix
      ∧ discovery_possible m = bool_decide (is_Some lambda_prefix).
Proof.
  eexists. split; [vm_compute; reflexivity|].
  apply (handler_lambda_prefix sample_environment empty_event).
  vm_compute. reflexivity.
Defined.

Lemma dict_get_has (k : string) (d : list (string * value)) (v : value) :
  dict_get k d = Some v → dict_has k d = true.
Proof.
  unfold dict_get, dict_has.
  induction d as [|[k' v'] d IH]; [done|]. cbn [List.find existsb fst].
  destruct (String.eqb k' k); [done|]. exact IH.
Qed.

Lemma dict_set_keys (k : string) (v : value) (d : list (string * value)) :
  dict_has k d = true →
  map fst (dict_set k v d) = map fst d
  ∧ Forall2 (fun kv kv' => kv.1 ≠ k → kv' = kv) d (dict_set k v d).
Proof.
  unfold dict_has, dict_set. intros ->. clear. induction d as [|[k' v'] d [IH1 IH2]].
  - by split; [|constructor].
  - cbn [map fst]. split.
    + rewrite IH1. by destruct (String.eqb_spec k' k) as [->|].
    + constructor; [|done]. cbn [fst].
      destruct (String.eqb_spec k' k) as [->|]; [by intros []|done].
Qed.

Lemma Forall2_same (d : list (string * value)) :
  Forall2 (fun kv kv' => kv.1 ≠ "event_source" → kv' = kv) d d.
Proof. induction d; by constructor. Qed.

(** X18. For one mapping of [EventSourceMappings], the handler's loop
    keeps the keys in their order and every entry other than
    [event_source]; it changes [event_source] only when that is a string
    naming one of the two stream references and discovery has found the
    stream, and then to the discovered ARN. *)
Theorem resolve_mapping_changes_only_event_source
        (mapping mapping' : list (string * value)) (discovered_streams : streams) :
  resolve_mapping mapping discovered_streams = Some mapping' →
  map fst mapping' = map fst mapping
  ∧ Forall2 (fun kv kv' => kv.1 ≠ "event_source" → kv' = kv) mapping mapping'
  ∧ (mapping' = mapping
     ∨ ∃ source arn : string,
         dict_get "event_source" mapping = Some (VStr source)
         ∧ mapping' = dict_set "event_source" (VStr arn) mapping
         ∧ ((contains "MultiorgStreamDiscoveryCustomResource.CTRStreamArn" source = true
             ∧ ctr_stream_arn discovered_streams = Some arn)
            ∨ (contains "MultiorgStreamDiscoveryCustomResource.ContactLensStreamArn"
                 source = true
               ∧ contact_lens_stream_arn discovered_streams = Some arn))).
Proof.
  unfold resolve_mapping. intros H.
  assert (Hsame : map fst mapping = map fst mapping
                  ∧ Forall2 (fun kv kv' => kv.1 ≠ "event_source" → kv' = kv)
                      mapping mapping
                  ∧ (mapping = mapping
                     ∨ ∃ source arn : string,
         dict_get "event_source" mapping = Some (VStr source)
         ∧ mapping = dict_set "event_source" (VStr arn) mapping
         ∧ ((contains "MultiorgStreamDiscoveryCustomResource.CTRStreamArn" source = true
             ∧ ctr_stream_arn discovered_streams = Some arn)
            ∨ (contains "MultiorgStreamDiscoveryCustomResource.ContactLensStreamArn"
                 source = true
               ∧ contact_lens_stream_arn discovered_streams = Some arn)))).
  { split; [done|]. split; [apply Forall2_same | by left]. }
  destruct (dict_get "event_source" mapping) as [v|] eqn:Hget.
  2:{ cbn in H. by injection H as <-. }
  cbn [default from_option Datatypes.id] in H.
  destruct v as [| | | |source| |]; cbn in H; try discriminate H;
    try (by injection H as <-).
  pose proof (dict_get_has _ _ _ Hget) as Hhas.
  destruct (contains "MultiorgStreamDiscoveryCustomResource.CTRStreamArn" source)
    eqn:Hctr.
  - destruct (ctr_stream_arn discovered_streams) as [arn|] eqn:Harn;
      [|by injection H as <-].
    destruct (String.eqb arn source); cbn [negb] in H; injection H as <-; [done|].
    destruct (dict_set_keys "event_source" (VStr arn) mapping Hhas) as [Hk Hf].
    split; [done|]. split; [done|]. right. exists source, arn. by auto.
  - destruct (contains "MultiorgStreamDiscoveryCustomResource.ContactLensStreamArn"
                source) eqn:Hcl.
    + destruct (contact_lens_stream_arn discovered_streams) as [arn|] eqn:Harn;
        [|by injection H as <-].
      destruct (String.eqb arn source); cbn [negb] in H; injection H as <-; [done|].
      destruct (dict_set_keys "event_source" (VStr arn) mapping Hhas) as [Hk Hf].
      split; [done|]. split; [done|]. right. exists source, arn. by auto.
    + rewrite String.eqb_refl in H. cbn [negb] in H. by injection H as <-.
Qed.

Lemma resolve_mapping_changes_only_event_source_witness :
  let mapping :=
    [ ("function", VStr "scv-CTRDataSyncFunction");
      ("event_source", VStr "MultiorgStreamDiscoveryCustomResource.CTRStreamArn");
      ("enabled", VBool true) ] in
  let mapping' :=
    [ ("function", VStr "scv-CTRDataSyncFunction");
      ("event_source", VStr "arn:aws:kinesis:us-west-2:409137744801:stream/ctr");
      ("enabled", VBool true) ] in
  let discovered_streams :=
    {| ctr_stream_arn := Some "arn:aws:kinesis:us-west-2:409137744801:stream/ctr";
       contact_lens_stream_arn := None |} in
  map fst mapping' = map fst mapping
  ∧ Forall2 (fun kv kv' => kv.1 ≠ "event_source" → kv' = kv) mapping mapping'
  ∧ (mapping' = mapping
     ∨ ∃ source arn : string,
         dict_get "event_source" mapping = Some (VStr source)
         ∧ mapping' = dict_set "event_source" (VStr arn) mapping
         ∧ ((contains "MultiorgStreamDiscoveryCustomResource.CTRStreamArn" source = true
             ∧ ctr_stream_arn discovered_streams = Some arn)
            ∨ (contains "MultiorgStreamDiscoveryCustomResource.ContactLensStreamArn"
                 source = true
               ∧ contact_lens_stream_arn discovered_streams = Some arn))).
Proof.
  intros mapping mapping' discovered_streams.
  apply (resolve_mapping_changes_only_event_source mapping mapping' discovered_streams).
  vm_compute. reflexivity.
Defined.

(** X19. The loop raises (a [TypeError], from the test
    ["MultiorgStreamDiscoveryCustomResource" in original_source]) exactly
    on a mapping whose [event_source] is [null], a boolean or a number; on
    every other mapping it goes on, whatever discovery has found. *)
Theorem resolve_mapping_raises_iff
        (mapping : list (string * value)) (discovered_streams : streams) :
  resolve_mapping mapping discovered_streams = None
  ↔ match dict_get "event_source" mapping with
    | Some VNull | Some (VBool _) | Some (VInt _) | Some (VFloat _) => True
    | _ => False
    end.
Proof.
  unfold resolve_mapping.
  destruct (dict_get "event_source" mapping) as [v|].
  2:{ cbn. by split. }
  cbn [default from_option Datatypes.id].
  destruct v as [| | | |source| |]; cbn; try (by split).
  repeat (match goal with |- context [if ?b then _ else _] => destruct b end
          || match goal with |- context [match ?o with Some _ => _ | None => _ end] =>
               destruct o end); by split.
Qed.

End HandlerProps.

(** ** The lifecycle policy of the report bucket *)

Module S3UtilsProps.
Import S3Utils.

Lemma existsb_app_rule (rules : list rule) :
  existsb is_health_report_rule (rules ++ [health_report_rule])%list = true.
Proof. rewrite existsb_app. cbn. by rewrite orb_true_r. Qed.

(** X20. When [ensure_lifecycle_policy] writes a configuration, it is the
    rules it has read, all of them and in their order, none of which is
    an enabled rule for [health_report/], followed by its own rule; and
    a second call that reads this configuration back writes nothing. *)
Theorem lifecycle_policy_put (got : get_result) (all_rules : list rule) :
  ensure_lifecycle_policy got = Some all_rules →
  (∃ existing_rules : list rule,
      all_rules = (existing_rules ++ [health_report_rule])%list
      ∧ existsb is_health_report_rule existing_rules = false
      ∧ (got = Response (Some existing_rules)
         ∨ (existing_rules = []
            ∧ (got = Response None
               ∨ got = ClientError "NoSuchLifecycleConfiguration"))))
  ∧ ensure_lifecycle_policy (Response (Some all_rules)) = None.
Proof.
  intros H.
  assert (Hback : ∀ rules,
             ensure_lifecycle_policy
               (Response (Some (rules ++ [health_report_rule])%list)) = None).
  { intros rules. unfold ensure_lifecycle_policy.
    cbn [default from_option Datatypes.id]. by rewrite existsb_app_rule. }
  destruct got as [[rules|]|code|]; cbn in H.
  - destruct (existsb is_health_report_rule rules) eqn:He; [done|].
    injection H as <-. split; [|apply Hback].
    exists rules. split; [done|]. split; [done|]. by left.
  - injection H as <-. split; [|apply (Hback [])].
    exists []. split; [done|]. split; [done|]. right. split; [done|]. by left.
  - destruct (String.eqb_spec code "NoSuchLifecycleConfiguration") as [->|]; [|done].
    injection H as <-. split; [|apply (Hback [])].
    exists []. split; [done|]. split; [done|]. right. split; [done|]. by right.
  - done.
Qed.

Lemma lifecycle_policy_put_witness :
  (∃ existing_rules : list rule,
      [health_report_rule] = (existing_rules ++ [health_report_rule])%list
      ∧ existsb is_health_report_rule existing_rules = false
      ∧ (ClientError "NoSuchLifecycleConfiguration" = Response (Some existing_rules)
         ∨ (existing_rules = []
            ∧ (ClientError "NoSuchLifecycleConfiguration" = Response None
               ∨ ClientError "NoSuchLifecycleConfiguration"
                 = ClientError "NoSuchLifecycleConfiguration"))))
  ∧ ensure_lifecycle_policy (Response (Some [health_report_rule])) = None.
Proof.
  exact (lifecycle_policy_put (ClientError "NoSuchLifecycleConfiguration")
           [health_report_rule] eq_refl).
Defined.

End S3UtilsProps.

(** ** The Kinesis validator *)

Module ValidatorsProps.
Import PyStr AwsHelpers Validators Orchestrator ExtraSpec.

Lemma stream_item_combine (all_streams : gset string) (name : string) :
  (let '(is_healthy, msg) := kinesis_stream_exists name all_streams in
   Some (combine_results name [(is_healthy, msg)]))
  = Some (stream_item all_streams name).
Proof.
  unfold kinesis_stream_exists, stream_item. by case_bool_decide.
Qed.

Lemma validate_kinesis_listed (names : list string) (all_streams : gset string) :
  validate_kinesis (Some (Some <$> names)) (Listed all_streams)
  = Some {| ResourceType := Some "Kinesis Stream";
            DetailedHealthCheck := Some (stream_item all_streams <$> names) |}.
Proof.
  unfold validate_kinesis. cbn [default from_option Datatypes.id].
  assert (Hm : mapM (fun stream_config : option string =>
                name ← stream_config;
                let '(is_healthy, msg) := kinesis_stream_exists name all_streams in
                Some (combine_results name [(is_healthy, msg)]))
             (Some <$> names) = Some (stream_item all_streams <$> names)).
  { apply mapM_Some. induction names as [|n names IH]; constructor; [|done].
    cbn. apply stream_item_combine. }
  by rewrite Hm.
Qed.

Lemma track_errors_app (errs : list string) (a b : list HealthCheck) :
  track_errors errs (a ++ b) = track_errors (track_errors errs a) b.
Proof. unfold track_errors. by rewrite fold_left_app. Qed.

Lemma track_errors_streams (all_streams : gset string) (names : list string)
      (errs : list string) :
  track_errors errs (stream_item all_streams <$> names)
  = (errs ++ (missing_stream_error
                <$> List.filter (fun name => negb (bool_decide (name ∈ all_streams)))
                      names))%list.
Proof.
  revert errs. induction names as [|n names IH]; intros errs.
  - cbn. by rewrite app_nil_r.
  - change (stream_item all_streams <$> n :: names)
      with ([stream_item all_streams n] ++ (stream_item all_streams <$> names))%list.
    rewrite track_errors_app, IH. cbn [List.filter].
    unfold stream_item at 1. case_bool_decide; cbn [negb].
    + reflexivity.
    + cbn. rewrite bool_decide_eq_false_2 by done.
      by rewrite <- app_assoc.
Qed.

(** X21. With the streams listed, [validate_kinesis] reports one item
    per configured stream, in order, and the orchestrator, collecting the
    report, records one error per configured stream that is not among the
    listed ones and nothing else; when listing fails with a [ClientError]
    the report is a single item of status 500 and one error is recorded;
    and the validator raises on a listing exactly when a configured stream
    has no name. *)
Theorem kinesis_task_collected (all_streams : gset string)
        (full_report : list ResourceTypeReport) (errs : list string) :
  (∀ names : list string,
      ∃ result : ResourceTypeReport,
        validate_kinesis (Some (Some <$> names)) (Listed all_streams) = Some result
        ∧ DetailedHealthCheck result = Some (stream_item all_streams <$> names)
        ∧ collect (full_report, errs) ("kinesis", Returned result)
          = ((full_report ++ [result])%list,
             (errs ++ (missing_stream_error
                         <$> List.filter
                               (fun name => negb (bool_decide (name ∈ all_streams)))
                               names))%list))
  ∧ (∀ (KinesisStreams : option (list (option string))) (e : string),
        ∃ result : ResourceTypeReport,
          validate_kinesis KinesisStreams (ListingFailed e) = Some result
          ∧ collect (full_report, errs) ("kinesis", Returned result)
            = ((full_report ++ [result])%list,
               (errs ++ [("All Kinesis Streams: Could not list Kinesis streams: "
                            ++ e)%string])%list))
  ∧ (∀ KinesisStreams : list (option string),
        validate_kinesis (Some KinesisStreams) (Listed all_streams) = None
        ↔ None ∈ KinesisStreams).
Proof.
  split; [|split].
  - intros names. eexists. split; [apply validate_kinesis_listed|].
    split; [reflexivity|]. unfold collect.
    cbn [fst snd DetailedHealthCheck default from_option Datatypes.id].
    by rewrite track_errors_streams.
  - intros KinesisStreams e. eexists. split; [reflexivity|]. reflexivity.
  - intros KinesisStreams. unfold validate_kinesis.
    cbn [default from_option Datatypes.id].
    destruct (mapM _ KinesisStreams) as [items|] eqn:Hm.
    + split; [done|]. intros Hin. exfalso.
      apply mapM_Some in Hm.
      apply list_elem_of_lookup in Hin as [i Hi].
      destruct (Forall2_lookup_l _ _ _ _ _ Hm Hi) as (y & _ & Hy). done.
    + split; [|done]. intros _.
      destruct (decide (None ∈ KinesisStreams)) as [|Hnot]; [done|]. exfalso.
      assert (His : is_Some (mapM (fun stream_config : option string =>
                name ← stream_config;
                let '(is_healthy, msg) := kinesis_stream_exists name all_streams in
                Some (combine_results name [(is_healthy, msg)])) KinesisStreams)).
      { apply mapM_is_Some. apply Forall_forall. intros [name|] Hx; [|done].
        cbn. rewrite stream_item_combine. by eexists. }
      rewrite Hm in His. by destruct His.
Qed.

End ValidatorsProps.
